(** * Legend Cut: the per-frame hair-compositing pipeline

    A shallow embedding of [app/utils/face_utils.py] (class [FaceDetector])
    and [app/utils/hair_overlay.py] (class [HairOverlay]).

    Modelling conventions.
    - Python [int] is [Z].  NumPy/Python floating point values are modelled
      by exact rationals ([Q]); [int(·)] and [.astype(np.uint8)] truncate
      toward zero ([py_int]).
    - A NumPy array is a shape together with an index function; arrays that
      the code mutates or aliases (frames, haircut bitmaps, cache entries)
      live in a store of arrays and are handled through their location.
    - A Python dict with optional keys ([adjustments], [head_pose]) is a
      record of [option] fields; [d.get(k, default)] is [default] on [None].
    - [try: ... except Exception: ...] is modelled through [option]: [None]
      is a raised exception, handled where the source handles it.
    - OpenCV, SciPy, MediaPipe and the file system are external: their
      operations are fields of the interface [Cv2] and of the per-call
      environment [World]. *)

From Stdlib Require Import ZArith QArith Qabs Qround Qminmax Lia String Ascii.
From stdpp Require Import base option list gmap strings sorting.

Local Open Scope Z_scope.

(** ** Numbers *)

(** Python's [int(f)] on a float: truncation toward zero. *)
Definition py_int (q : Q) : Z := Z.quot (Qnum q) (Zpos (Qden q)).

(** [np.clip(v, lo, hi)] on a scalar. *)
Definition np_clip (v lo hi : Q) : Q :=
  if Qlt_le_dec v lo then lo else if Qlt_le_dec hi v then hi else v.

(** [a > b] on floats, as a boolean. *)
Definition Qgtb (a b : Q) : bool := negb (Qle_bool a b).

(** Python's [max(a, b)] on floats. *)
Definition py_max (a b : Q) : Q := if Qlt_le_dec a b then b else a.

(** ** Landmarks and regions ([face_utils.py]) *)

Module Landmark.
Record t := mk { x : Q; y : Q }.
End Landmark.

(** [landmarks.landmark]: the list of normalized landmarks of one face. *)
Definition LandmarkSet := list Landmark.t.

Module Region.
Record t := mk {
  x : Z; y : Z; width : Z; height : Z; center_x : Z; center_y : Z
}.
End Region.

(** [image_shape[:2]] is [(h, w)]. *)
Definition Shape2 := (Z * Z)%type.

(** [FaceDetector.get_forehead_region]; [None] is the [except] branch, taken
    when a landmark index is out of range. *)
Definition get_forehead_region (landmarks : LandmarkSet) (image_shape : Shape2)
  : option Region.t :=
  let '(h, w) := image_shape in
  left_temple ← landmarks !! 234%nat;
  right_temple ← landmarks !! 454%nat;
  brow_center ← landmarks !! 8%nat;
  top_forehead ← landmarks !! 10%nat;
  let left_x := py_int (Landmark.x left_temple * inject_Z w) in
  let right_x := py_int (Landmark.x right_temple * inject_Z w) in
  let forehead_height :=
    py_int (Qabs (Landmark.y top_forehead - Landmark.y brow_center)
            * inject_Z h * (18 # 10)) in
  let top_y := Z.max 0 (py_int (Landmark.y top_forehead * inject_Z h) - forehead_height) in
  let bottom_y := py_int (Landmark.y brow_center * inject_Z h) in
  let width := Z.max 10 (right_x - left_x) in
  let height := Z.max 10 (bottom_y - top_y) in
  Some {| Region.x := left_x;
          Region.y := top_y;
          Region.width := width;
          Region.height := height;
          Region.center_x := left_x + width / 2;
          Region.center_y := top_y + height / 2 |}.

(** [FaceDetector.get_hair_region]. *)
Definition get_hair_region (landmarks : LandmarkSet) (image_shape : Shape2)
  : option Region.t :=
  match get_forehead_region landmarks image_shape with
  | None => None
  | Some forehead =>
      let x0 := Region.x forehead - py_int (inject_Z (Region.width forehead) * (4 # 10)) in
      let y0 := Region.y forehead - py_int (inject_Z (Region.height forehead) * (6 # 10)) in
      let width0 := Region.width forehead + py_int (inject_Z (Region.width forehead) * (8 # 10)) in
      let height0 := Region.height forehead + py_int (inject_Z (Region.height forehead) * (12 # 10)) in
      let '(h, w) := image_shape in
      let x := Z.max 0 x0 in
      let y := Z.max 0 y0 in
      let width := Z.min (w - x) width0 in
      let height := Z.min (h - y) height0 in
      Some {| Region.x := x;
              Region.y := y;
              Region.width := width;
              Region.height := height;
              Region.center_x := x + width / 2;
              Region.center_y := y + height / 2 |}
  end.

(** A landmark set is valid when it has the full topology (the indices the
    code reads exist) and every point is normalized to [0,1]×[0,1]. *)
Definition valid_landmark (p : Landmark.t) : Prop :=
  (0 <= Landmark.x p)%Q /\ (Landmark.x p <= 1)%Q /\
  (0 <= Landmark.y p)%Q /\ (Landmark.y p <= 1)%Q.

Definition valid_landmarks (landmarks : LandmarkSet) : Prop :=
  (455 <= length landmarks)%nat /\ Forall valid_landmark landmarks.

(** The region lies inside the frame [[0,w) × [0,h)]. *)
Definition region_in_frame (r : Region.t) (image_shape : Shape2) : Prop :=
  let '(h, w) := image_shape in
  0 <= Region.x r /\ 0 <= Region.y r /\
  Region.x r + Region.width r <= w /\ Region.y r + Region.height r <= h.

(** A landmark set of the refined topology (478 points): every point at
    [p] except the four the region estimator reads. *)
Definition landmarks_with (p left_temple right_temple brow_center top_forehead : Landmark.t)
  : LandmarkSet :=
  <[234%nat := left_temple]>
    (<[454%nat := right_temple]>
       (<[8%nat := brow_center]>
          (<[10%nat := top_forehead]> (replicate 478 p)))).

(** ** NumPy arrays *)

(** An array of shape [(rows, cols)] ([chans = None], two-dimensional) or
    [(rows, cols, c)] ([chans = Some c]); [item r c k] is the element at row
    [r], column [c], channel [k] (two-dimensional arrays are read at
    channel [0]). *)
Record ndarray (A : Type) := mk_ndarray {
  rows : Z;
  cols : Z;
  chans : option Z;
  item : Z -> Z -> Z -> A
}.
Arguments mk_ndarray {A} _ _ _ _.
Arguments rows {A} _.
Arguments cols {A} _.
Arguments chans {A} _.
Arguments item {A} _ _ _ _.

(** uint8 images and float arrays. *)
Abbreviation image := (ndarray Z).
Abbreviation farray := (ndarray Q).

Section Arrays.
Context {A B C : Type}.

Definition amap (f : A -> B) (a : ndarray A) : ndarray B :=
  mk_ndarray (rows a) (cols a) (chans a) (fun r c k => f (item a r c k)).

(** Elementwise binary operation on arrays of the same shape. *)
Definition azip (f : A -> B -> C) (a : ndarray A) (b : ndarray B) : ndarray C :=
  mk_ndarray (rows a) (cols a) (chans a) (fun r c k => f (item a r c k) (item b r c k)).

(** [a[r1:r2, c1:c2]] for [0 <= r1 <= r2 <= rows], [0 <= c1 <= c2 <= cols]. *)
Definition slice (a : ndarray A) (r1 r2 c1 c2 : Z) : ndarray A :=
  mk_ndarray (r2 - r1) (c2 - c1) (chans a) (fun r c k => item a (r + r1) (c + c1) k).

(** [a[r1:r2, c1:c2] = v]. *)
Definition set_slice (a : ndarray A) (r1 r2 c1 c2 : Z) (v : ndarray A) : ndarray A :=
  mk_ndarray (rows a) (cols a) (chans a)
    (fun r c k =>
       if (r1 <=? r) && (r <? r2) && (c1 <=? c) && (c <? c2)
       then item v (r - r1) (c - c1) k else item a r c k).

(** [a[:, :, :n]]. *)
Definition first_channels (n : Z) (a : ndarray A) : ndarray A :=
  mk_ndarray (rows a) (cols a) (Some n) (item a).

(** [a[:, :, k]]. *)
Definition channel (k : Z) (a : ndarray A) : ndarray A :=
  mk_ndarray (rows a) (cols a) None (fun r c _ => item a r c k).

(** [a[:, :, k] = v] for a two-dimensional [v]. *)
Definition set_channel (k : Z) (a v : ndarray A) : ndarray A :=
  mk_ndarray (rows a) (cols a) (chans a)
    (fun r c j => if j =? k then item v r c 0 else item a r c j).

(** [np.stack([v, v, v], axis=2)] for a two-dimensional [v]. *)
Definition stack3 (v : ndarray A) : ndarray A :=
  mk_ndarray (rows v) (cols v) (Some 3) (fun r c _ => item v r c 0).

(** [np.dstack([a, v])]: append the two-dimensional [v] as a last channel. *)
Definition dstack (a v : ndarray A) : ndarray A :=
  let n := default 1 (chans a) in
  mk_ndarray (rows a) (cols a) (Some (n + 1))
    (fun r c j => if j =? n then item v r c 0 else item a r c j).
End Arrays.

(** [0, 1, ..., n-1]. *)
Definition zrange (n : Z) : list Z := map Z.of_nat (seq 0 (Z.to_nat n)).

Definition Qsum (l : list Q) : Q := fold_right Qplus 0%Q l.

(** Number of elements of an array. *)
Definition asize {A} (a : ndarray A) : Z := rows a * cols a * default 1 (chans a).

(** All elements of an array, row by row. *)
Definition elements {A} (a : ndarray A) : list A :=
  r ← zrange (rows a); c ← zrange (cols a); k ← zrange (default 1 (chans a));
  [item a r c k].

(** [a.mean()] over all elements. *)
Definition mean (a : farray) : Q :=
  (Qsum (elements a) / inject_Z (asize a))%Q.

(** [.astype(np.float32)] on a uint8 array. *)
Definition astype_float (a : image) : farray := amap inject_Z a.

(** [.astype(np.uint8)] on a float array: truncation, then wrap-around. *)
Definition astype_uint8 (a : farray) : image := amap (fun v => py_int v mod 256) a.

(** [np.ones((rows, cols), dtype=np.uint8) * 255]. *)
Definition ones255 (r c : Z) : image := mk_ndarray r c None (fun _ _ _ => 255).

(** ** Head pose, adjustments, sessions *)

Module Euler.
Record t := mk { x : Q; y : Q; z : Q }.
End Euler.

(** The dict returned by [get_head_pose]: [{"success": False}] carries no
    angles. *)
Module HeadPose.
Record t := mk { success : bool; euler_angles : option Euler.t }.
End HeadPose.

(** The [adjustments] dict; every key is optional. *)
Module Adjustments.
Record t := mk {
  scale : option Q; rotation : option Q; x : option Z; y : option Z
}.
(** [{}] *)
Definition empty : t := mk None None None None.
End Adjustments.

(** A value of [session_settings]: a dict that may hold ["adjustments"]. *)
Module Session.
Record t := mk { adjustments : option Adjustments.t }.
End Session.

(** The 2×3 matrix of [cv2.getRotationMatrix2D]. *)
Module Mat23.
Record t := mk { m00 : Q; m01 : Q; m02 : Q; m10 : Q; m11 : Q; m12 : Q }.
End Mat23.

(** ** External libraries *)

(** The OpenCV / SciPy / NumPy operations the pipeline calls.  Operations that
    can raise return [option].  The only law used is that a successful
    [cv2.resize] has the requested size and keeps the channel layout. *)
Class Cv2 := {
  cv2_resize : image -> Z * Z -> option image;
  cv2_getRotationMatrix2D : Z * Z -> Q -> Q -> Mat23.t;
  cv2_warpAffine : image -> Mat23.t -> Z * Z -> option image;
  cv2_GaussianBlur : image -> image;
  cv2_BGR2GRAY : image -> image;
  gaussian_filter : farray -> farray;
  cv2_solvePnP : list (Q * Q) -> Q * (Q * Q) -> option (bool * (Q * Q * Q) * (Q * Q * Q));
  cv2_Rodrigues : Q * Q * Q -> Z -> Z -> Q;
  np_sqrt : Q -> Q;
  np_arctan2 : Q -> Q -> Q;
  np_degrees : Q -> Q;
  cv2_resize_shape : forall src new_width new_height,
    0 < rows src -> 0 < cols src -> 0 < new_width -> 0 < new_height ->
    exists dst, cv2_resize src (new_width, new_height) = Some dst /\
                rows dst = new_height /\ cols dst = new_width /\
                chans dst = chans src
}.

(** [cv2.cvtColor(img, cv2.COLOR_GRAY2BGRA)]: gray copied to B, G, R and an
    opaque alpha. *)
Definition cv2_GRAY2BGRA (a : image) : image :=
  mk_ndarray (rows a) (cols a) (Some 4)
    (fun r c k => if k =? 3 then 255 else item a r c 0).

(** What one call sees of the outside world: the file system, the image
    decoder and the MediaPipe face mesh. *)
Record World := mk_World {
  path_exists : string -> bool;
  imread : string -> option image;
  face_mesh : image -> option LandmarkSet
}.

(** ** Head pose ([FaceDetector.get_head_pose]) *)

Definition FAILED_POSE : HeadPose.t := HeadPose.mk false None.

Definition get_head_pose `{Cv2} (landmarks : LandmarkSet) (image_shape : Shape2)
  : HeadPose.t :=
  let '(h, w) := image_shape in
  let image_point (i : nat) : option (Q * Q) :=
    p ← landmarks !! i;
    Some (Landmark.x p * inject_Z w, Landmark.y p * inject_Z h)%Q in
  (* NOSE_TIP, CHIN, LEFT_EYE_LEFT, RIGHT_EYE_RIGHT, LEFT_MOUTH, RIGHT_MOUTH *)
  match mapM image_point [1; 152; 33; 263; 61; 291]%nat with
  | None => FAILED_POSE
  | Some image_points =>
      let focal_length := inject_Z w in
      let center := (inject_Z w / 2, inject_Z h / 2)%Q in
      match cv2_solvePnP image_points (focal_length, center) with
      | None => FAILED_POSE
      | Some (success, rotation_vector, translation_vector) =>
          if success then
            let R := cv2_Rodrigues rotation_vector in
            let sy := np_sqrt (Qplus (Qmult (R 0 0) (R 0 0)) (Qmult (R 1 0) (R 1 0))) in
            let singular := negb (Qle_bool (1 # 1000000) sy) in
            let x_angle := if singular then np_arctan2 (Qopp (R 1 2)) (R 1 1)
                           else np_arctan2 (R 2 1) (R 2 2) in
            let y_angle := np_arctan2 (Qopp (R 2 0)) sy in
            let z_angle := if singular then 0%Q else np_arctan2 (R 1 0) (R 0 0) in
            HeadPose.mk true
              (Some (Euler.mk (np_degrees x_angle) (np_degrees y_angle)
                              (np_degrees z_angle)))
          else FAILED_POSE
      end
  end.

(** ** The store, the caches and the call trace *)

(** Calls the properties below speak about: [preprocess_haircut], tagged with
    the cache key [load_haircut] is filling, and [detect_face], tagged with
    the frame it is given. *)
Inductive Event :=
| EvPreprocess (cache_key : string)
| EvDetect (frame : nat).

(** [heap]: the arrays alive in the process, addressed by position.
    [haircut_cache] and [session_settings] are the two dicts of
    [HairOverlay]; a cache entry is a reference to an array. *)
Record State := mk_State {
  heap : list image;
  haircut_cache : gmap string nat;
  session_settings : gmap string Session.t;
  trace : list Event
}.

Definition M (A : Type) : Type := State -> A * State.

#[global] Instance M_ret : MRet M := fun _ a st => (a, st).
#[global] Instance M_bind : MBind M :=
  fun _ _ f m st => let '(a, st') := m st in f a st'.

(** A new array object holding [v]. *)
Definition alloc (v : image) : M nat := fun st =>
  (length (heap st),
   mk_State (heap st ++ [v]) (haircut_cache st) (session_settings st) (trace st)).

Definition read (l : nat) : M (option image) := fun st => (heap st !! l, st).

(** In-place update of the array at [l]. *)
Definition write (l : nat) (v : image) : M unit := fun st =>
  (tt, mk_State (<[l := v]> (heap st)) (haircut_cache st) (session_settings st) (trace st)).

Definition log (e : Event) : M unit := fun st =>
  (tt, mk_State (heap st) (haircut_cache st) (session_settings st) (trace st ++ [e])).

Definition cache_lookup (k : string) : M (option nat) := fun st =>
  (haircut_cache st !! k, st).

Definition cache_store (k : string) (l : nat) : M unit := fun st =>
  (tt, mk_State (heap st) (<[k := l]> (haircut_cache st)) (session_settings st) (trace st)).

Definition session_lookup (k : string) : M (option Session.t) := fun st =>
  (session_settings st !! k, st).

(** ** Paths *)

(** [os.path.basename]: what follows the last ['/']. *)
Fixpoint basename (path : string) : string :=
  match path with
  | EmptyString => EmptyString
  | String c rest =>
      if Ascii.eqb c "/"%char then basename rest
      else if existsb (Ascii.eqb "/"%char) (list_ascii_of_string rest)
           then basename rest else path
  end.

(** ** Asset cache ([HairOverlay.load_haircut], [preprocess_haircut]) *)

(** [preprocess_haircut]: blur the alpha channel of the array in place.
    A two-dimensional array makes [haircut.shape[2]] raise; the handler
    returns the array as it is. *)
Definition preprocess_haircut `{Cv2} (haircut : nat) : M nat :=
  ov ← read haircut;
  match ov with
  | None => mret haircut
  | Some v =>
      match chans v with
      | None => mret haircut
      | Some c =>
          if c =? 4 then
            let alpha := channel 3 v in
            let alpha := cv2_GaussianBlur alpha in
            _ ← write haircut (set_channel 3 v alpha);
            mret haircut
          else mret haircut
      end
  end.

(** [f"{gender}_{os.path.basename(haircut_path)}"] *)
Definition cache_key_of (gender haircut_path : string) : string :=
  gender +:+ "_" +:+ basename haircut_path.

(** [load_haircut].  The trace records the call of [preprocess_haircut].
    A cache entry always refers to a live array, so the [None] answer of
    [read cached] does not occur in a reachable state. *)
Definition load_haircut `{Cv2} (W : World) (haircut_path gender : string)
  : M (option nat) :=
  if negb (path_exists W haircut_path) then mret None
  else
    let cache_key := cache_key_of gender haircut_path in
    hit ← cache_lookup cache_key;
    match hit with
    | Some cached =>
        ov ← read cached;
        match ov with
        | Some v => l ← alloc v; mret (Some l)
        | None => mret None
        end
    | None =>
        match imread W haircut_path with
        | None => mret None
        | Some raw =>
            haircut ← alloc raw;
            haircut ← match chans raw with
                      | None => alloc (cv2_GRAY2BGRA raw)
                      | Some c =>
                          if c =? 3
                          then alloc (dstack raw (ones255 (rows raw) (cols raw)))
                          else mret haircut
                      end;
            _ ← log (EvPreprocess cache_key);
            haircut ← preprocess_haircut haircut;
            ov ← read haircut;
            match ov with
            | Some v =>
                copy ← alloc v;
                _ ← cache_store cache_key copy;
                mret (Some haircut)
            | None => mret None
            end
        end
    end.

(** ** Transform ([HairOverlay.transform_haircut]) *)

(** The rotation angle: clipped yaw of a successful pose, plus the user's
    rotation. *)
Definition rotation_angle_of (head_pose : HeadPose.t) (adjustments : Adjustments.t) : Q :=
  let rotation_angle :=
    if HeadPose.success head_pose then
      let yaw := default 0%Q (Euler.y <$> HeadPose.euler_angles head_pose) in
      np_clip yaw (-30 # 1) (30 # 1)
    else 0%Q in
  (rotation_angle + default 0 (Adjustments.rotation adjustments))%Q.

(** The size [cv2.resize] is asked for: [(new_width, new_height)]. *)
Definition resized_size (haircut : image) (hair_region : Region.t)
    (adjustments : Adjustments.t) : Z * Z :=
  let h := rows haircut in
  let w := cols haircut in
  let base_scale_x :=
    if 0 <? w then (inject_Z (Region.width hair_region) / inject_Z w)%Q else 1%Q in
  let base_scale_y :=
    if 0 <? h then (inject_Z (Region.height hair_region) / inject_Z h)%Q else 1%Q in
  let base_scale := py_max base_scale_x base_scale_y in
  let user_scale := default 1%Q (Adjustments.scale adjustments) in
  let scale := (base_scale * user_scale)%Q in
  let new_width := Z.max 10 (py_int (inject_Z w * scale)) in
  let new_height := Z.max 10 (py_int (inject_Z h * scale)) in
  (new_width, new_height).

(** The rotation step applied to the resized bitmap; [None] when
    [cv2.warpAffine] raises. *)
Definition rotate_expand `{Cv2} (resized : image) (new_width new_height : Z)
    (rotation_angle : Q) : option image :=
  let center := (new_width / 2, new_height / 2) in
  let rotation_matrix := cv2_getRotationMatrix2D center rotation_angle 1%Q in
  let cos := Qabs (Mat23.m00 rotation_matrix) in
  let sin := Qabs (Mat23.m01 rotation_matrix) in
  let new_w := py_int (inject_Z new_height * sin + inject_Z new_width * cos) in
  let new_h := py_int (inject_Z new_height * cos + inject_Z new_width * sin) in
  let rotation_matrix :=
    Mat23.mk (Mat23.m00 rotation_matrix) (Mat23.m01 rotation_matrix)
      (Mat23.m02 rotation_matrix + (inject_Z new_w / 2 - inject_Z (fst center)))%Q
      (Mat23.m10 rotation_matrix) (Mat23.m11 rotation_matrix)
      (Mat23.m12 rotation_matrix + (inject_Z new_h / 2 - inject_Z (snd center)))%Q in
  cv2_warpAffine resized rotation_matrix (new_w, new_h).

(** [transform_haircut]; a raising [cv2] call lands in the handler, which
    returns the haircut it was given. *)
Definition transform_haircut `{Cv2} (haircut : image) (head_pose : HeadPose.t)
    (hair_region : Region.t) (adjustments : option Adjustments.t) : image :=
  let adjustments := default Adjustments.empty adjustments in
  let rotation_angle := rotation_angle_of head_pose adjustments in
  let '(new_width, new_height) := resized_size haircut hair_region adjustments in
  match cv2_resize haircut (new_width, new_height) with
  | None => haircut
  | Some resized =>
      if Qgtb (Qabs rotation_angle) 1 then
        match rotate_expand resized new_width new_height rotation_angle with
        | None => haircut
        | Some rotated => rotated
        end
      else resized
  end.

(** ** Compositor ([HairOverlay.overlay_haircut], [color_match_hair]) *)

(** The adjusted pixels written back by [color_match_hair]. *)
Definition color_adjust (ratio : Q) (blended_roi : image) : image :=
  astype_uint8
    (amap (fun b => np_clip (b * ratio * (7 # 10) + b * (3 # 10)) 0 (255 # 1))%Q
          (astype_float blended_roi)).

(** [cv2.cvtColor(a, cv2.COLOR_BGR2GRAY).mean()]. *)
Definition mean_luma `{Cv2} (a : image) : Q := mean (astype_float (cv2_BGR2GRAY a)).

(** [color_match_hair]: [frame] is the array being composed, updated in
    place. *)
Definition color_match_hair `{Cv2} (frame : nat) (original_roi : farray)
    (blended_roi : image) (y1 y2 x1 x2 : Z) : M nat :=
  if Qgtb (mean original_roi) 0 then
    let original_lum := mean_luma (astype_uint8 original_roi) in
    let blended_lum := mean_luma blended_roi in
    if Qgtb blended_lum 0 then
      let ratio := (original_lum / blended_lum)%Q in
      let adjusted := color_adjust ratio blended_roi in
      ov ← read frame;
      match ov with
      | Some v => _ ← write frame (set_slice v y1 y2 x1 x2 adjusted); mret frame
      | None => mret frame
      end
    else mret frame
  else mret frame.

(** The rectangles [overlay_haircut] computes: the part of the frame that is
    covered, [(x1, y1, x2, y2)], and the part of the haircut that covers it,
    [(hx1, hy1, hx2, hy2)]. *)
Definition overlay_bounds (frame_w frame_h w h x y : Z) : (Z * Z * Z * Z) * (Z * Z * Z * Z) :=
  let x1 := Z.max 0 x in
  let y1 := Z.max 0 y in
  let x2 := Z.min frame_w (x + w) in
  let y2 := Z.min frame_h (y + h) in
  let hx1 := Z.max 0 (- x) in
  let hy1 := Z.max 0 (- y) in
  let hx2 := Z.min w (frame_w - x) in
  let hy2 := Z.min h (frame_h - y) in
  ((x1, y1, x2, y2), (hx1, hy1, hx2, hy2)).

(** [rgb * alpha_3ch + roi * (1 - alpha_3ch)], as uint8. *)
Definition alpha_blend (rgb alpha_3ch roi : farray) : image :=
  astype_uint8
    (azip Qplus (azip Qmult rgb alpha_3ch)
                (azip Qmult roi (amap (fun a => 1 - a)%Q alpha_3ch))).

(** The blend of a 4-channel haircut slice over the region of interest:
    colour and normalized alpha are separated, the alpha is feathered, and
    the two layers are mixed. *)
Definition blend_slice `{Cv2} (haircut_slice : image) (roi : farray) : image :=
  let rgb := astype_float (first_channels 3 haircut_slice) in
  let alpha := amap (fun a => a / (255 # 1))%Q (astype_float (channel 3 haircut_slice)) in
  let alpha := gaussian_filter alpha in
  let alpha_3ch := stack3 alpha in
  alpha_blend rgb alpha_3ch roi.

(** [overlay_haircut].  The handler returns the frame it was given; the
    source raises when the haircut is two-dimensional ([shape[2]]) and when
    the frame is not a 3-channel image (the blend or the assignment of the
    3-channel blend does not broadcast). *)
Definition overlay_haircut `{Cv2} (frame : nat) (haircut : image)
    (hair_region : Region.t) (adjustments : option Adjustments.t) : M nat :=
  let adjustments := default Adjustments.empty adjustments in
  ov ← read frame;
  match ov with
  | None => mret frame
  | Some fr =>
      result ← alloc fr;
      let base_x := Region.x hair_region in
      let base_y := Region.y hair_region in
      let x_offset := default 0 (Adjustments.x adjustments) in
      let y_offset := default 0 (Adjustments.y adjustments) in
      let x := base_x + x_offset in
      let y := base_y + y_offset in
      let h := rows haircut in
      let w := cols haircut in
      let frame_h := rows fr in
      let frame_w := cols fr in
      let '((x1, y1, x2, y2), (hx1, hy1, hx2, hy2)) :=
        overlay_bounds frame_w frame_h w h x y in
      if (hx1 <? hx2) && (hy1 <? hy2) then
        let haircut_slice := slice haircut hy1 hy2 hx1 hx2 in
        match chans haircut_slice with
        | None => mret frame
        | Some c =>
            if c =? 4 then
              let roi := astype_float (slice fr y1 y2 x1 x2) in
              if decide (chans fr = Some 3) then
                let blended := blend_slice haircut_slice roi in
                _ ← write result (set_slice fr y1 y2 x1 x2 blended);
                if Qgtb (mean roi) 0
                then color_match_hair result roi blended y1 y2 x1 x2
                else mret result
              else mret frame
            else mret result
        end
      else mret result
  end.

(** ** Pipeline ([FaceDetector.detect_face], [HairOverlay.apply_haircut]) *)

(** [cv2.cvtColor(image, cv2.COLOR_BGR2RGB)]. *)
Definition cv2_BGR2RGB (a : image) : image :=
  mk_ndarray (rows a) (cols a) (chans a)
    (fun r c k => if k =? 0 then item a r c 2 else if k =? 2 then item a r c 0
                  else item a r c k).

(** What [detect_face] answers for a frame with pixels [v]: [None] when no
    face is found or when a call raises (the face mesh takes 3-channel
    images only). *)
Definition detected (W : World) (v : image) : option LandmarkSet :=
  if decide (chans v = Some 3) then face_mesh W (cv2_BGR2RGB v) else None.

(** [detect_face]. *)
Definition detect_face (W : World) (image : nat) : M (option LandmarkSet) :=
  _ ← log (EvDetect image);
  ov ← read image;
  match ov with
  | None => mret None
  | Some v => mret (detected W v)
  end.

(** The fallback chain of [apply_haircut]: declared category, then
    [custom], then the base name in [custom]. *)
Definition resolve_haircut_path (W : World) (haircut_name gender : string)
  : option string :=
  let haircut_path := "app/static/haircuts/" +:+ gender +:+ "/" +:+ haircut_name in
  let haircut_path :=
    if negb (path_exists W haircut_path)
    then "app/static/haircuts/custom/" +:+ haircut_name
    else haircut_path in
  if negb (path_exists W haircut_path) then
    let alt_path := "app/static/haircuts/custom/" +:+ basename haircut_name in
    if path_exists W alt_path then Some alt_path else None
  else Some haircut_path.

(** A Python string used as a condition. *)
Definition truthy (s : option string) : option string :=
  match s with
  | Some EmptyString | None => None
  | Some s => Some s
  end.

Definition apply_haircut `{Cv2} (W : World) (frame : nat)
    (haircut_name gender : string) (session_id : option string) : M (nat * bool) :=
  let face_detected := false in
  match resolve_haircut_path W haircut_name gender with
  | None => mret (frame, face_detected)
  | Some haircut_path =>
      haircut ← load_haircut W haircut_path gender;
      match haircut with
      | None => mret (frame, face_detected)
      | Some haircut =>
          landmarks ← detect_face W frame;
          match landmarks with
          | None => mret (frame, face_detected)
          | Some landmarks =>
              let face_detected := true in
              ofr ← read frame;
              ohc ← read haircut;
              match ofr, ohc with
              | Some fr, Some hc =>
                  let frame_shape := (rows fr, cols fr) in
                  let head_pose := get_head_pose landmarks frame_shape in
                  match get_hair_region landmarks frame_shape with
                  | None => mret (frame, face_detected)
                  | Some hair_region =>
                      session ← match truthy session_id with
                                | Some sid => session_lookup sid
                                | None => mret None
                                end;
                      let adjustments :=
                        match session with
                        | Some s => default Adjustments.empty (Session.adjustments s)
                        | None => Adjustments.empty
                        end in
                      let transformed_haircut :=
                        transform_haircut hc head_pose hair_region (Some adjustments) in
                      result ← overlay_haircut frame transformed_haircut hair_region
                                               (Some adjustments);
                      mret (result, face_detected)
                  end
              | _, _ => mret (frame, false)
              end
          end
      end
  end.

(** ** A reference implementation of the external operations

    A small executable [Cv2], used to run the pipeline on concrete frames:
    nearest-neighbour resampling, the 3×3 binomial kernel OpenCV uses for
    [GaussianBlur(·, (3, 3), 0)], a 9-tap rational approximation of SciPy's
    [gaussian_filter(·, sigma=1)], OpenCV's fixed-point luma, and Bhaskara's
    rational sine.  The pose solver of this implementation never converges
    ([success = False]). *)
Module Reference.

Definition resize (src : image) (dsize : Z * Z) : option image :=
  let '(new_width, new_height) := dsize in
  if (0 <? rows src) && (0 <? cols src) && (0 <? new_width) && (0 <? new_height)
  then Some (mk_ndarray new_height new_width (chans src)
               (fun r c k => item src (r * rows src / new_height)
                                     (c * cols src / new_width) k))
  else None.

(** Sine of an angle in degrees. *)
Definition sin_deg (a : Q) : Q :=
  let t := (a - inject_Z (360 * Qfloor (a / (360 # 1))))%Q in
  let bhaskara x := (4 * x * ((180 # 1) - x) / ((40500 # 1) - x * ((180 # 1) - x)))%Q in
  if Qle_bool t (180 # 1) then bhaskara t else (- bhaskara (t - (180 # 1)))%Q.

Definition cos_deg (a : Q) : Q := sin_deg (a + (90 # 1)).

Definition getRotationMatrix2D (center : Z * Z) (angle scale : Q) : Mat23.t :=
  let cx := inject_Z (fst center) in
  let cy := inject_Z (snd center) in
  let alpha := (scale * cos_deg angle)%Q in
  let beta := (scale * sin_deg angle)%Q in
  Mat23.mk alpha beta ((1 - alpha) * cx - beta * cy)%Q
           (- beta)%Q alpha (beta * cx + (1 - alpha) * cy)%Q.

Definition round_half_up (q : Q) : Z := Qfloor (q + (1 # 2)).

(** Nearest-neighbour warp with a transparent black border. *)
Definition warpAffine (src : image) (m : Mat23.t) (dsize : Z * Z) : option image :=
  let '(new_w, new_h) := dsize in
  let det := (Mat23.m00 m * Mat23.m11 m - Mat23.m01 m * Mat23.m10 m)%Q in
  if (0 <? new_w) && (0 <? new_h) && negb (Qeq_bool det 0) then
    Some (mk_ndarray new_h new_w (chans src)
      (fun r c k =>
         let u := (inject_Z c - Mat23.m02 m)%Q in
         let v := (inject_Z r - Mat23.m12 m)%Q in
         let sx := round_half_up ((Mat23.m11 m * u - Mat23.m01 m * v) / det) in
         let sy := round_half_up ((Mat23.m00 m * v - Mat23.m10 m * u) / det) in
         if (0 <=? sx) && (sx <? cols src) && (0 <=? sy) && (sy <? rows src)
         then item src sy sx k else 0))
  else None.

(** [BORDER_REFLECT_101]: [gfedcb|abcdefgh|gfedcba]. *)
Definition reflect101 (n i : Z) : Z :=
  if n <=? 1 then 0
  else if i <? 0 then - i else if n <=? i then 2 * n - 2 - i else i.

Definition GaussianBlur3 (a : image) : image :=
  mk_ndarray (rows a) (cols a) (chans a)
    (fun r c k =>
       let p dr dc := item a (reflect101 (rows a) (r + dr)) (reflect101 (cols a) (c + dc)) k in
       (p (-1) (-1) + 2 * p (-1) 0 + p (-1) 1
        + 2 * p 0 (-1) + 4 * p 0 0 + 2 * p 0 1
        + p 1 (-1) + 2 * p 1 0 + p 1 1 + 8) / 16).

Definition BGR2GRAY (a : image) : image :=
  mk_ndarray (rows a) (cols a) None
    (fun r c _ => (item a r c 0 * 1868 + item a r c 1 * 9617
                   + item a r c 2 * 4899 + 8192) / 16384).

(** SciPy's [mode='reflect']: [dcba|abcd|dcba]. *)
Definition reflect (n i : Z) : Z :=
  if n <=? 0 then 0
  else let j := i mod (2 * n) in if j <? n then j else 2 * n - 1 - j.

(** The normalized weights of a Gaussian of sigma 1 truncated at radius 4,
    in millionths. *)
Definition gauss_taps : list (Z * Z) :=
  [(-4, 134); (-3, 4432); (-2, 53991); (-1, 241971); (0, 398944);
   (1, 241971); (2, 53991); (3, 4432); (4, 134)].

(** Weighted sum, kept in lowest terms. *)
Definition weighted_sum (l : list (Z * Q)) : Q :=
  fold_right (fun t acc => Qred (inject_Z (fst t) * snd t + acc)) 0%Q l.

Definition gaussian_filter1 (a : farray) : farray :=
  mk_ndarray (rows a) (cols a) (chans a)
    (fun r c k =>
       Qred (weighted_sum
               (t1 ← gauss_taps; t2 ← gauss_taps;
                [(snd t1 * snd t2,
                  item a (reflect (rows a) (r + fst t1)) (reflect (cols a) (c + fst t2)) k)])
             / (1000000000000 # 1))).

Definition solvePnP (image_points : list (Q * Q)) (camera : Q * (Q * Q))
  : option (bool * (Q * Q * Q) * (Q * Q * Q)) :=
  Some (false, (0, 0, 0)%Q, (0, 0, 0)%Q).

(** First-order rotation matrix of a rotation vector. *)
Definition Rodrigues (v : Q * Q * Q) (i j : Z) : Q :=
  let '(vx, vy, vz) := v in
  if i =? j then 1%Q
  else if (i =? 0) && (j =? 1) then (- vz)%Q else if (i =? 1) && (j =? 0) then vz
  else if (i =? 0) && (j =? 2) then vy else if (i =? 2) && (j =? 0) then (- vy)%Q
  else if (i =? 1) && (j =? 2) then (- vx)%Q else vx.

(** Three Newton steps. *)
Definition sqrt (q : Q) : Q :=
  let step x := ((x + q / x) / 2)%Q in
  if Qle_bool q 0 then 0%Q else step (step (step ((1 + q) / 2)%Q)).

Definition pi : Q := 355 # 113.

Definition arctan (z : Q) : Q :=
  (z * (pi / 4 + (273 # 1000) * (1 - Qabs z)))%Q.

Definition arctan2 (y x : Q) : Q :=
  if Qle_bool (Qabs y) (Qabs x) then
    if Qeq_bool x 0 then 0%Q
    else if Qle_bool 0 x then arctan (y / x)
    else if Qle_bool 0 y then (arctan (y / x) + pi)%Q else (arctan (y / x) - pi)%Q
  else if Qle_bool 0 y then (pi / 2 - arctan (x / y))%Q
  else (- (pi / 2) - arctan (x / y))%Q.

Definition degrees (r : Q) : Q := (r * (180 # 1) / pi)%Q.

End Reference.

Definition Reference_resize_shape (src : image) (new_width new_height : Z) :
  0 < rows src -> 0 < cols src -> 0 < new_width -> 0 < new_height ->
  exists dst, Reference.resize src (new_width, new_height) = Some dst /\
              rows dst = new_height /\ cols dst = new_width /\
              chans dst = chans src.
Proof.
  intros Hr Hc Hw Hh. unfold Reference.resize.
  apply Z.ltb_lt in Hr, Hc, Hw, Hh. rewrite Hr, Hc, Hw, Hh. simpl.
  eexists. split; [reflexivity | simpl; auto].
Qed.

Definition RefCv2 : Cv2 := {|
  cv2_resize := Reference.resize;
  cv2_getRotationMatrix2D := Reference.getRotationMatrix2D;
  cv2_warpAffine := Reference.warpAffine;
  cv2_GaussianBlur := Reference.GaussianBlur3;
  cv2_BGR2GRAY := Reference.BGR2GRAY;
  gaussian_filter := Reference.gaussian_filter1;
  cv2_solvePnP := Reference.solvePnP;
  cv2_Rodrigues := Reference.Rodrigues;
  np_sqrt := Reference.sqrt;
  np_arctan2 := Reference.arctan2;
  np_degrees := Reference.degrees;
  cv2_resize_shape := Reference_resize_shape
|}.

(** ** Derived notions used in the statements *)

(** [set_heap st h]: the state [st] with store [h]. *)
Definition set_heap (st : State) (h : list image) : State :=
  mk_State h (haircut_cache st) (session_settings st) (trace st).

(** The 4-channel form [load_haircut] brings a decoded image to. *)
Definition ensure_bgra (raw : image) : image :=
  match chans raw with
  | None => cv2_GRAY2BGRA raw
  | Some c => if c =? 3 then dstack raw (ones255 (rows raw) (cols raw)) else raw
  end.

(** The decoded array, when [load_haircut] replaces it by a converted one. *)
Definition conversion_garbage (raw : image) : list image :=
  match chans raw with
  | None => [raw]
  | Some c => if c =? 3 then [raw] else []
  end.

(** The content [preprocess_haircut] leaves in the array it is given. *)
Definition preprocessed `{Cv2} (v : image) : image :=
  match chans v with
  | Some c => if c =? 4 then set_channel 3 v (cv2_GaussianBlur (channel 3 v)) else v
  | None => v
  end.

(** A sequence of [load_haircut] calls, each with the world it runs in. *)
Fixpoint run_loads `{Cv2} (calls : list (World * string * string)) (st : State) : State :=
  match calls with
  | [] => st
  | (W, haircut_path, gender) :: rest =>
      run_loads rest (snd (load_haircut W haircut_path gender st))
  end.

(** A freshly constructed [HairOverlay]: empty cache, nothing traced. *)
Definition initial_state (h : list image) (sessions : gmap string Session.t) : State :=
  mk_State h ∅ sessions [].

#[global] Instance Event_eq_dec : EqDecision Event.
Proof. solve_decision. Defined.

(** How often [preprocess_haircut] ran for a cache key. *)
Definition preprocess_count (cache_key : string) (tr : list Event) : nat :=
  count_occ Event_eq_dec tr (EvPreprocess cache_key).

(** The cache invariant: [preprocess_haircut] ran once for every key in the
    cache and never for another key, and every entry refers to an array. *)
Definition cache_inv (st : State) : Prop :=
  (forall key, preprocess_count key (trace st) =
               match haircut_cache st !! key with Some _ => 1%nat | None => 0%nat end) /\
  (forall key cached, haircut_cache st !! key = Some cached ->
                      is_Some (heap st !! cached)).

(** The asset is in none of the three places [apply_haircut] looks at. *)
Definition asset_unresolved (W : World) (haircut_name gender : string) : Prop :=
  path_exists W ("app/static/haircuts/" +:+ gender +:+ "/" +:+ haircut_name) = false /\
  path_exists W ("app/static/haircuts/custom/" +:+ haircut_name) = false /\
  path_exists W ("app/static/haircuts/custom/" +:+ basename haircut_name) = false.

(** Where the compositor places the bitmap: the region's origin moved by the
    user's offsets. *)
Definition placement (hair_region : Region.t) (adjustments : option Adjustments.t) : Z * Z :=
  let a := default Adjustments.empty adjustments in
  (Region.x hair_region + default 0 (Adjustments.x a),
   Region.y hair_region + default 0 (Adjustments.y a)).

(** Extent of the intersection of [[x, x + w)] with [[0, frame_w)]; not
    positive when they do not meet. *)
Definition overlap_extent (frame_w w x : Z) : Z :=
  Z.min frame_w (x + w) - Z.max 0 x.

(** The two rectangles of [overlay_haircut] for a frame and a bitmap. *)
Definition overlay_rects (fr haircut : image) (hair_region : Region.t)
    (adjustments : option Adjustments.t) : (Z * Z * Z * Z) * (Z * Z * Z * Z) :=
  let '(x, y) := placement hair_region adjustments in
  overlay_bounds (cols fr) (rows fr) (cols haircut) (rows haircut) x y.

(** The pre-blend background of the covered rectangle, and the blend that
    replaces it. *)
Definition background_roi (fr : image) (rect : Z * Z * Z * Z) : farray :=
  let '(x1, y1, x2, y2) := rect in astype_float (slice fr y1 y2 x1 x2).

Definition blended_roi `{Cv2} (fr haircut : image)
    (rects : (Z * Z * Z * Z) * (Z * Z * Z * Z)) : image :=
  let '(rect, (hx1, hy1, hx2, hy2)) := rects in
  blend_slice (slice haircut hy1 hy2 hx1 hx2) (background_roi fr rect).


(** ** Specification-side statements and sample inputs *)

(** The region property as the specification words it: inside the frame,
    and at least 10 pixels wide and high. *)
Definition hair_region_spec : Prop :=
  forall (landmarks : LandmarkSet) (h w : Z) (r : Region.t),
    valid_landmarks landmarks ->
    get_hair_region landmarks (h, w) = Some r ->
    region_in_frame r (h, w) /\ 10 <= Region.width r /\ 10 <= Region.height r.

(** A face at the right edge of the frame: both temples at [x = 1]. *)
Definition edge_face : LandmarkSet :=
  landmarks_with (Landmark.mk (1 # 2) (1 # 2))
    (Landmark.mk 1 (1 # 2)) (Landmark.mk 1 (1 # 2))
    (Landmark.mk (1 # 2) (1 # 2)) (Landmark.mk (1 # 2) (1 # 4)).


(** A frontal face in the middle of the frame. *)
Definition centered_face : LandmarkSet :=
  landmarks_with (Landmark.mk (1 # 2) (1 # 2))
    (Landmark.mk (3 # 8) (1 # 2)) (Landmark.mk (5 # 8) (1 # 2))
    (Landmark.mk (1 # 2) (3 # 8)) (Landmark.mk (1 # 2) (1 # 4)).

(** The covering scale of the specification:
    [max(hairRegion.width / w, hairRegion.height / h)]. *)
Definition covering_scale (haircut : image) (hair_region : Region.t) : Q :=
  Qmax (inject_Z (Region.width hair_region) / inject_Z (cols haircut))
       (inject_Z (Region.height hair_region) / inject_Z (rows haircut)).

(** [(⌊w·base_scale⌋, ⌊h·base_scale⌋)]. *)
Definition covering_size (haircut : image) (hair_region : Region.t) : Z * Z :=
  (Qfloor (inject_Z (cols haircut) * covering_scale haircut hair_region),
   Qfloor (inject_Z (rows haircut) * covering_scale haircut hair_region)).




(** A solved pose with the given yaw, in degrees. *)
Definition pose_with_yaw (yaw : Q) : HeadPose.t :=
  HeadPose.mk true (Some (Euler.mk 0 yaw 0)).


(** A BGR frame of one colour. *)
Definition flat_frame (h w v : Z) : image := mk_ndarray h w (Some 3) (fun _ _ _ => v).

(** An opaque BGRA bitmap of one colour. *)
Definition flat_bitmap (h w v : Z) : image :=
  mk_ndarray h w (Some 4) (fun _ _ k => if k =? 3 then 255 else v).

Definition region_at (x y width height : Z) : Region.t :=
  Region.mk x y width height (x + width / 2) (y + height / 2).

(** A world where every path exists and decodes to [asset], and where the
    face mesh answers [landmarks]. *)
Definition world_with (asset : image) (landmarks : option LandmarkSet) : World :=
  mk_World (fun _ => true) (fun _ => Some asset) (fun _ => landmarks).

(** A world with no haircut files. *)
Definition empty_world (landmarks : option LandmarkSet) : World :=
  mk_World (fun _ => false) (fun _ => None) (fun _ => landmarks).

(** A process holding one frame and nothing else. *)
Definition one_frame (fr : image) : State := initial_state [fr] ∅.

(** ** More of the code: bounding box, session endpoints, frame endpoint *)

(** The dict returned by [get_face_bounding_box]. *)
Module Box.
Record t := mk { x : Z; y : Z; width : Z; height : Z }.
End Box.

(** Python's [min(l)] and [max(l)]; [None] is the [ValueError] raised on an
    empty list. *)
Definition py_min_of (l : list Z) : option Z :=
  match l with
  | [] => None
  | v :: rest => Some (foldr Z.min v rest)
  end.

Definition py_max_of (l : list Z) : option Z :=
  match l with
  | [] => None
  | v :: rest => Some (foldr Z.max v rest)
  end.

(** [FaceDetector.get_face_bounding_box]; it has no handler of its own, so
    [None] is an exception that reaches the caller. *)
Definition get_face_bounding_box (landmarks : LandmarkSet) (image_shape : Shape2)
  : option Box.t :=
  let '(h, w) := image_shape in
  let x_coords := (fun landmark => py_int (Landmark.x landmark * inject_Z w)) <$> landmarks in
  let y_coords := (fun landmark => py_int (Landmark.y landmark * inject_Z h)) <$> landmarks in
  x_lo ← py_min_of x_coords;
  x_hi ← py_max_of x_coords;
  y_lo ← py_min_of y_coords;
  y_hi ← py_max_of y_coords;
  let x_min := Z.max 0 x_lo in
  let x_max := Z.min w x_hi in
  let y_min := Z.max 0 y_lo in
  let y_max := Z.min h y_hi in
  Some {| Box.x := x_min; Box.y := y_min;
          Box.width := x_max - x_min; Box.height := y_max - y_min |}.

(** The pixel a landmark falls on. *)
Definition landmark_pixel (p : Landmark.t) (image_shape : Shape2) : Z * Z :=
  let '(h, w) := image_shape in
  (py_int (Landmark.x p * inject_Z w), py_int (Landmark.y p * inject_Z h)).

(** A JSON value, as the endpoints of [app/main.py] receive and store it. *)
#[local] Unset Elimination Schemes.
Inductive json :=
| JNull
| JBool (b : bool)
| JNum (q : Q)
| JStr (s : string)
| JList (l : list json)
| JDict (d : list (string * json)).
#[local] Set Elimination Schemes.

(** What an endpoint answers: the [JSONResponse] bodies of [app/main.py],
    with the status code where the source sets one. *)
Inductive Response :=
| RSuccess (message : string)
| RError (error : string) (status_code : nat)
| RSession (session : gmap string json)
| RFrame (frame : string) (face_detected : bool)
| RUploaded (filename path : string)
| RHaircuts (haircuts : list string) (count : nat) (gender : string)
| RHttpException (status_code : nat) (detail : string).

(** The module state of [app/main.py]: the dict [active_sessions] and the
    [HairOverlay] instance [hair_overlay]. *)
Record Server := mk_Server {
  active_sessions : gmap string (gmap string json);
  hair_overlay : State
}.

(** The server when the module has just been loaded. *)
Definition initial_server : Server := mk_Server ∅ (initial_state [] ∅).

Module AdjustRequest.
Record t := mk { session_id : option string; adjustments : option json }.
End AdjustRequest.

(** [adjust_haircut] ([POST /api/adjust-haircut]). *)
Definition adjust_haircut (data : AdjustRequest.t) (srv : Server) : Response * Server :=
  let session_id := AdjustRequest.session_id data in
  let adjustments := default (JDict []) (AdjustRequest.adjustments data) in
  match truthy session_id with
  | None => (RError "Session ID required" 200, srv)
  | Some session_id =>
      let sessions := active_sessions srv in
      let sessions :=
        match sessions !! session_id with
        | Some _ => sessions
        | None => <[session_id := ∅]> sessions
        end in
      let sessions :=
        <[session_id := <["adjustments" := adjustments]> (default ∅ (sessions !! session_id))]>
          sessions in
      (RSuccess "Adjustments saved", mk_Server sessions (hair_overlay srv))
  end.

(** [reset_session] ([POST /api/reset-session]). *)
Definition reset_session (session_id : option string) (srv : Server) : Response * Server :=
  match truthy session_id with
  | Some sid =>
      match active_sessions srv !! sid with
      | Some _ =>
          (RSuccess "Session reset successfully",
           mk_Server (delete sid (active_sessions srv)) (hair_overlay srv))
      | None => (RError "Session not found" 200, srv)
      end
  | None => (RError "Session not found" 200, srv)
  end.

(** [get_session] ([GET /api/session/{session_id}]). *)
Definition get_session (session_id : string) (srv : Server) : Response :=
  match active_sessions srv !! session_id with
  | Some session => RSession session
  | None => RError "Session not found" 200
  end.

(** Strings. *)

Fixpoint string_drop (n : nat) (s : string) : string :=
  match n, s with
  | O, _ => s
  | S n', String _ s' => string_drop n' s'
  | S _, EmptyString => EmptyString
  end.

(** [s.partition(sep)] for a non-empty [sep]: what precedes and what follows
    the first occurrence of [sep], [None] when there is none. *)
Fixpoint partition_at (sep s : string) : option (string * string) :=
  if String.prefix sep s then Some (EmptyString, string_drop (String.length sep) s)
  else match s with
       | EmptyString => None
       | String c s' =>
           match partition_at sep s' with
           | Some (before, after) => Some (String c before, after)
           | None => None
           end
       end.

(** [if "base64," in frame_data: frame_data = frame_data.split("base64,")[1]] *)
Definition strip_data_uri (frame_data : string) : string :=
  match partition_at "base64," frame_data with
  | None => frame_data
  | Some (_, rest) =>
      match partition_at "base64," rest with
      | None => rest
      | Some (segment, _) => segment
      end
  end.

(** The image codec around a frame: [base64.b64decode] with [cv2.imdecode]
    ([None] when either fails), and [cv2.imencode] with [base64.b64encode]. *)
Inductive Encoded :=
| EncOk (b64 : string)
| EncRaise (message : string).

Record Codec := mk_Codec {
  decode_frame : string -> option image;
  encode_frame : image -> Encoded
}.

Module FrameRequest.
Record t := mk {
  frame : option string; gender : option string;
  haircut : option string; session_id : option string
}.
End FrameRequest.

(** [process_frame] ([POST /api/process-frame]).  The decoded frame is a new
    array; an exception of the encoder reaches the outer handler (status
    500). *)
Definition process_frame (C : Codec) `{Cv2} (W : World) (data : FrameRequest.t)
    (srv : Server) : Response * Server :=
  let gender := default "male" (FrameRequest.gender data) in
  let session_id := FrameRequest.session_id data in
  match truthy (FrameRequest.frame data) with
  | None => (RError "Missing frame data" 200, srv)
  | Some frame_data =>
      match truthy (FrameRequest.haircut data) with
      | None => (RError "No haircut selected" 200, srv)
      | Some haircut =>
          let frame_data := strip_data_uri frame_data in
          match decode_frame C frame_data with
          | None => (RError "Invalid frame data" 200, srv)
          | Some decoded =>
              let '(frame, st) := alloc decoded (hair_overlay srv) in
              let '((result_frame, face_detected), st) :=
                apply_haircut W frame haircut gender session_id st in
              let srv := mk_Server (active_sessions srv) st in
              match encode_frame C <$> heap st !! result_frame with
              | Some (EncOk result_base64) =>
                  (RFrame ("data:image/jpeg;base64," +:+ result_base64) face_detected, srv)
              | Some (EncRaise message) => (RError message 500, srv)
              | None => (RError "" 500, srv)
              end
          end
      end
  end.

(** A request to the server, with the outside world it is served in. *)
Inductive Request `{Cv2} :=
| ReqAdjust (data : AdjustRequest.t)
| ReqReset (session_id : option string)
| ReqSession (session_id : string)
| ReqFrame (C : Codec) (W : World) (data : FrameRequest.t).

Definition handle `{Cv2} (req : Request) (srv : Server) : Response * Server :=
  match req with
  | ReqAdjust data => adjust_haircut data srv
  | ReqReset session_id => reset_session session_id srv
  | ReqSession session_id => (get_session session_id srv, srv)
  | ReqFrame C W data => process_frame C W data srv
  end.

Fixpoint run_requests `{Cv2} (reqs : list Request) (srv : Server) : Server :=
  match reqs with
  | [] => srv
  | req :: rest => run_requests rest (snd (handle req srv))
  end.


(** [sep in s]. *)
Definition contains (sep s : string) : Prop :=
  exists before after, s = before +:+ sep +:+ after.

(** ** Uploads and listings

    File names are byte strings; [lower] changes the ASCII letters, which
    are the only ones the extension tests look at.  The file-system calls
    of [upload_haircut] are taken to succeed. *)

Definition ascii_lower (c : ascii) : ascii :=
  let n := nat_of_ascii c in
  if (65 <=? n)%nat && (n <=? 90)%nat then ascii_of_nat (n + 32) else c.

(** [s.lower()] *)
Fixpoint lower (s : string) : string :=
  match s with
  | EmptyString => EmptyString
  | String c s' => String (ascii_lower c) (lower s')
  end.

(** [s.split(sep)] for a one-character [sep]. *)
Fixpoint split_char (sep : ascii) (s : string) : list string :=
  match s with
  | EmptyString => [EmptyString]
  | String c s' =>
      if Ascii.eqb c sep then EmptyString :: split_char sep s'
      else match split_char sep s' with
           | segment :: rest => String c segment :: rest
           | [] => [String c EmptyString]
           end
  end.

(** [s.endswith(suffix)] *)
Fixpoint endswith (s suffix : string) : bool :=
  String.eqb s suffix ||
  match s with
  | EmptyString => false
  | String _ s' => endswith s' suffix
  end.

(** The [UploadFile] handed to [upload_haircut]. *)
Module Upload.
Record t := mk {
  content_type : option string;
  filename : option string;
  contents : list Byte.byte
}.
End Upload.

(** What [upload_haircut] does to the file system. *)
Inductive FsEvent :=
| FsMakedirs (path : string)
| FsWrite (path : string) (contents : list Byte.byte).

(** [upload_haircut] ([POST /api/upload-haircut]); [uuid4] is the value of
    [uuid.uuid4()].  An [HTTPException] is re-raised; the [AttributeError] of
    a missing file name reaches the outer handler (status 500). *)
Definition upload_haircut (uuid4 : string) (file : Upload.t) : Response * list FsEvent :=
  match truthy (Upload.content_type file) with
  | None => (RHttpException 400 "File must be an image", [])
  | Some content_type =>
      if negb (String.prefix "image/" content_type)
      then (RHttpException 400 "File must be an image", [])
      else
        match Upload.filename file with
        | None => (RError "'NoneType' object has no attribute 'split'" 500, [])
        | Some name =>
            let file_extension := lower (List.last (split_char "." name) EmptyString) in
            if negb (bool_decide (file_extension ∈ ["png"; "jpg"; "jpeg"; "gif"]))
            then (RHttpException 400 "Only PNG, JPG, JPEG, and GIF files are allowed", [])
            else
              let filename := uuid4 +:+ "." +:+ file_extension in
              let filepath := "app/static/haircuts/custom/" +:+ filename in
              let contents := Upload.contents file in
              if 10 * 1024 * 1024 <? Z.of_nat (length contents)
              then (RHttpException 400 "File size too large. Maximum 10MB allowed.",
                    [FsMakedirs "app/static/haircuts/custom"])
              else (RUploaded filename ("/static/haircuts/custom/" +:+ filename),
                    [FsMakedirs "app/static/haircuts/custom"; FsWrite filepath contents])
        end
  end.

(** What [os.path.exists] and [os.listdir] find at a path. *)
Inductive DirState :=
| Missing
| NotListable (message : string)
| Listing (all_files : list string).

(** The filter of [get_haircuts]. *)
Definition is_image_name (h : string) : bool :=
  existsb (endswith (lower h)) [".png"; ".jpg"; ".jpeg"; ".gif"].

(** Python's order on strings. *)
Definition str_le (a b : string) : Prop := String.leb a b = true.

#[global] Instance str_le_dec (a b : string) : Decision (str_le a b).
Proof. unfold str_le. apply _. Defined.

(** [get_haircuts] ([GET /api/haircuts/{gender}]). *)
Definition get_haircuts (listdir : string -> DirState) (gender : string) : Response :=
  if negb (bool_decide (gender ∈ ["male"; "female"; "custom"]))
  then RError "Invalid gender. Use 'male', 'female', or 'custom'" 200
  else
    let haircut_dir := "app/static/haircuts/" +:+ gender in
    match listdir haircut_dir with
    | Listing all_files =>
        let haircuts := filter (fun h => is_image_name h = true) all_files in
        let haircuts := merge_sort str_le haircuts in
        RHaircuts haircuts (length haircuts) gender
    | NotListable message => RError message 500
    | Missing => RError "Gender directory not found" 200
    end.

(** The region moved by [(dx, dy)]. *)
Definition shift_region (hair_region : Region.t) (dx dy : Z) : Region.t :=
  Region.mk (Region.x hair_region + dx) (Region.y hair_region + dy)
            (Region.width hair_region) (Region.height hair_region)
            (Region.center_x hair_region) (Region.center_y hair_region).

(** The adjustments [apply_haircut] finds for a session id: the stored ones,
    [{}] when the id is empty or unknown. *)
Definition session_adjustments (session_id : option string) (st : State) : Adjustments.t :=
  match truthy session_id with
  | Some sid =>
      match session_settings st !! sid with
      | Some s => default Adjustments.empty (Session.adjustments s)
      | None => Adjustments.empty
      end
  | None => Adjustments.empty
  end.

(** The state after [detect_face] has been called on [frame]. *)
Definition after_detect (frame : nat) (st : State) : State :=
  mk_State (heap st) (haircut_cache st) (session_settings st) (trace st ++ [EvDetect frame]).

(** The three places [apply_haircut] looks at, in order. *)
Definition candidate_paths (haircut_name gender : string) : list string :=
  ["app/static/haircuts/" +:+ gender +:+ "/" +:+ haircut_name;
   "app/static/haircuts/custom/" +:+ haircut_name;
   "app/static/haircuts/custom/" +:+ basename haircut_name].

(** Two arrays have the same shape. *)
Definition same_shape {A B} (a : ndarray A) (b : ndarray B) : Prop :=
  rows a = rows b /\ cols a = cols b /\ chans a = chans b.

(** [(r, c)] lies in the rectangle [(x1, y1, x2, y2)]. *)
Definition in_rect (rect : Z * Z * Z * Z) (r c : Z) : Prop :=
  let '(x1, y1, x2, y2) := rect in y1 <= r < y2 /\ x1 <= c < x2.

(** * Properties *)

(** ** Truncation *)

Lemma py_int_nonneg (q : Q) : (0 <= q)%Q -> 0 <= py_int q.
Proof.
  unfold Qle, py_int. simpl. intros Hq. apply Z.quot_pos; lia.
Qed.

Lemma py_int_scale (n a : Z) (b : positive) :
  py_int (inject_Z n * (a # b)) = Z.quot (n * a) (Zpos b).
Proof. reflexivity. Qed.

(** A normalized coordinate lands on a pixel index in [[0, n]]. *)
Lemma py_int_normalized (v : Q) (n : Z) :
  (0 <= v)%Q -> (v <= 1)%Q -> 0 <= n ->
  0 <= py_int (v * inject_Z n) <= n.
Proof.
  intros H0 H1 Hn. split.
  - apply py_int_nonneg. apply Qmult_le_0_compat; [done|].
    unfold Qle; simpl; lia.
  - unfold py_int. destruct v as [a b]. unfold Qle in *. simpl in *.
    rewrite Pos.mul_1_r. rewrite Z.quot_div_nonneg by nia.
    apply Z.div_le_upper_bound; nia.
Qed.

Lemma py_int_scale_lower (n a k : Z) (b : positive) :
  0 <= a -> 0 <= k -> k * Zpos b <= n * a -> k <= py_int (inject_Z n * (a # b)).
Proof.
  intros Ha Hk Hle. rewrite py_int_scale.
  rewrite Z.quot_div_nonneg by nia.
  apply Z.div_le_lower_bound; lia.
Qed.

(** ** Region estimator *)

Section RegionEstimator.

Lemma forehead_region_facts (landmarks : LandmarkSet) (h w : Z) (f : Region.t) :
  valid_landmarks landmarks -> 0 <= w -> 0 <= h ->
  get_forehead_region landmarks (h, w) = Some f ->
  0 <= Region.x f <= w /\ 0 <= Region.y f <= h /\
  10 <= Region.width f /\ 10 <= Region.height f.
Proof.
  intros [_ Hall] Hw Hh. unfold get_forehead_region.
  destruct (landmarks !! 234%nat) as [lt|] eqn:E1; [|done].
  destruct (landmarks !! 454%nat) as [rt|] eqn:E2; [|done].
  destruct (landmarks !! 8%nat) as [bc|] eqn:E3; [|done].
  destruct (landmarks !! 10%nat) as [tf|] eqn:E4; [|done].
  cbn [mbind option_bind]. intros Heq. apply (inj Some) in Heq. subst f.
  cbn [Region.x Region.y Region.width Region.height].
  rewrite Forall_lookup in Hall.
  destruct (Hall _ _ E1) as (Hx0 & Hx1 & _).
  destruct (Hall _ _ E4) as (_ & _ & Hy0 & Hy1).
  pose proof (py_int_normalized _ _ Hx0 Hx1 Hw).
  pose proof (py_int_normalized _ _ Hy0 Hy1 Hh).
  assert (0 <= py_int (Qabs (Landmark.y tf - Landmark.y bc) * inject_Z h * (18 # 10))).
  { apply py_int_nonneg. repeat apply Qmult_le_0_compat; try apply Qabs_nonneg;
      unfold Qle; simpl; lia. }
  lia.
Qed.

End RegionEstimator.

Lemma landmarks_with_valid (p a b c d : Landmark.t) :
  valid_landmark p -> valid_landmark a -> valid_landmark b ->
  valid_landmark c -> valid_landmark d ->
  valid_landmarks (landmarks_with p a b c d).
Proof.
  intros Hp Ha Hb Hc Hd. split.
  - unfold landmarks_with. rewrite !length_insert, length_replicate. lia.
  - unfold landmarks_with.
    repeat (apply Forall_insert; [|assumption]).
    apply Forall_replicate. assumption.
Qed.

Lemma valid_landmark_intro (a b : Q) :
  Qle_bool 0 a && Qle_bool a 1 && Qle_bool 0 b && Qle_bool b 1 = true ->
  valid_landmark (Landmark.mk a b).
Proof.
  rewrite !andb_true_iff, !Qle_bool_iff. unfold valid_landmark. simpl. tauto.
Qed.

(** C1 (as amended).  For a valid landmark set and a non-empty frame, the hair
    region lies inside the frame, is not empty, and is at least 10 pixels
    wide (high) wherever the frame leaves 10 pixels to the right of (below)
    its origin. *)
Theorem hair_region_in_frame (landmarks : LandmarkSet) (h w : Z) (r : Region.t) :
  valid_landmarks landmarks -> 0 < w -> 0 < h ->
  get_hair_region landmarks (h, w) = Some r ->
  region_in_frame r (h, w) /\
  (Region.x r < w) /\ (Region.y r < h) /\
  (0 < Region.width r) /\ (0 < Region.height r) /\
  (Z.min 10 (w - Region.x r) <= Region.width r) /\
  (Z.min 10 (h - Region.y r) <= Region.height r).
Proof.
  intros Hv Hw Hh. unfold get_hair_region.
  destruct (get_forehead_region landmarks (h, w)) as [f|] eqn:Ef; [|done].
  destruct (forehead_region_facts landmarks h w f Hv ltac:(lia) ltac:(lia) Ef)
    as (Hx & Hy & Hfw & Hfh).
  intros Heq. apply (inj Some) in Heq. subst r.
  unfold region_in_frame.
  cbn [Region.x Region.y Region.width Region.height].
  pose proof (py_int_scale_lower (Region.width f) 4 4 10 ltac:(lia) ltac:(lia) ltac:(lia)).
  pose proof (py_int_scale_lower (Region.height f) 6 6 10 ltac:(lia) ltac:(lia) ltac:(lia)).
  pose proof (py_int_scale_lower (Region.width f) 8 0 10 ltac:(lia) ltac:(lia) ltac:(lia)).
  pose proof (py_int_scale_lower (Region.height f) 12 0 10 ltac:(lia) ltac:(lia) ltac:(lia)).
  lia.
Qed.

Lemma hair_region_in_frame_witness :
  region_in_frame
    {| Region.x := 176; Region.y := 0; Region.width := 288; Region.height := 369;
       Region.center_x := 320; Region.center_y := 184 |} (480, 640).
Proof.
  refine (proj1 (hair_region_in_frame centered_face 480 640 _ _ _ _ _)).
  - apply landmarks_with_valid; apply valid_landmark_intro; reflexivity.
  - lia.
  - lia.
  - vm_compute. reflexivity.
Defined.

(** C1 (as stated) fails: with both temples at the right edge of a 640×480
    frame the hair region is 4 pixels wide. *)
Lemma hair_region_narrow_at_edge :
  valid_landmarks edge_face /\
  get_hair_region edge_face (480, 640) =
    Some {| Region.x := 636; Region.y := 0; Region.width := 4; Region.height := 480;
            Region.center_x := 638; Region.center_y := 240 |} /\
  ~ hair_region_spec.
Proof.
  assert (Hv : valid_landmarks edge_face).
  { apply landmarks_with_valid; apply valid_landmark_intro; reflexivity. }
  assert (He : get_hair_region edge_face (480, 640) =
    Some {| Region.x := 636; Region.y := 0; Region.width := 4; Region.height := 480;
            Region.center_x := 638; Region.center_y := 240 |}).
  { vm_compute. reflexivity. }
  split; [exact Hv|]. split; [exact He|].
  intros Hspec. destruct (Hspec _ _ _ _ Hv He) as (_ & Hwidth & _).
  simpl in Hwidth. lia.
Qed.

(** ** The store *)

Lemma insert_snoc {A} (l : list A) (x y : A) :
  <[length l := y]> (l ++ [x]) = l ++ [y].
Proof.
  rewrite insert_app_r_alt by lia. rewrite Nat.sub_diag. reflexivity.
Qed.

Lemma lookup_snoc {A} (l : list A) (x : A) :
  (l ++ [x]) !! length l = Some x.
Proof. apply list_lookup_middle. reflexivity. Qed.

(** Unfolding one monadic step. *)
Ltac step :=
  unfold mbind, mret, M_bind, M_ret, read, write, alloc, log,
    cache_lookup, cache_store, session_lookup in *;
  cbn [fst snd heap haircut_cache session_settings trace] in *.

Section Compositor.
Context `{Cv2}.

(** [color_match_hair] returns the array it was given and touches no other
    array. *)
Lemma color_match_hair_write (frame : nat) (original_roi : farray)
    (blended_roi : image) (y1 y2 x1 x2 : Z) (st : State) (v : image) :
  heap st !! frame = Some v ->
  exists v',
    color_match_hair frame original_roi blended_roi y1 y2 x1 x2 st =
      (frame, set_heap st (<[frame := v']> (heap st))).
Proof.
  intros Hv. unfold color_match_hair, set_heap.
  assert (Hid : (frame, st) =
    (frame, mk_State (<[frame := v]> (heap st)) (haircut_cache st)
                     (session_settings st) (trace st))).
  { rewrite list_insert_id by done. by destruct st. }
  destruct (Qgtb (mean original_roi) 0); [|by exists v].
  destruct (Qgtb _ 0); [|by exists v].
  step. rewrite Hv. eauto.
Qed.

(** [overlay_haircut] allocates one array, the composed frame, and updates
    nothing else. *)
Lemma overlay_haircut_alloc (frame : nat) (haircut : image) (hair_region : Region.t)
    (adjustments : option Adjustments.t) (st : State) (fr : image) :
  heap st !! frame = Some fr ->
  exists out,
    snd (overlay_haircut frame haircut hair_region adjustments st) =
      set_heap st (heap st ++ [out]) /\
    (fst (overlay_haircut frame haircut hair_region adjustments st) = length (heap st) \/
     fst (overlay_haircut frame haircut hair_region adjustments st) = frame).
Proof.
  intros Hf. unfold overlay_haircut, set_heap. step. rewrite Hf.
  destruct (overlay_bounds _ _ _ _ _ _) as [[[[x1 y1] x2] y2] [[[hx1 hy1] hx2] hy2]].
  destruct ((hx1 <? hx2) && (hy1 <? hy2)); [|by exists fr; auto].
  destruct (chans (slice haircut hy1 hy2 hx1 hx2)) as [c|]; [|by exists fr; auto].
  destruct (c =? 4); [|by exists fr; auto].
  destruct (decide (chans fr = Some 3)); [|by exists fr; auto].
  cbn [heap haircut_cache session_settings trace].
  rewrite insert_snoc.
  destruct (Qgtb _ 0); [|eexists; eauto].
  match goal with |- context [color_match_hair ?f ?o ?b ?a1 ?a2 ?a3 ?a4 ?s] =>
    destruct (color_match_hair_write f o b a1 a2 a3 a4 s _ (lookup_snoc _ _)) as [v' ->]
  end.
  unfold set_heap. cbn [fst snd heap haircut_cache session_settings trace].
  rewrite insert_snoc. eauto.
Qed.

End Compositor.

(** ** Comparisons and clipping *)



Lemma np_clip_bounds (v lo hi : Q) :
  (lo <= hi)%Q -> (lo <= np_clip v lo hi)%Q /\ (np_clip v lo hi <= hi)%Q.
Proof.
  intros Hle. unfold np_clip.
  destruct (Qlt_le_dec v lo); [split; [apply Qle_refl | done]|].
  destruct (Qlt_le_dec hi v); [split; [done | apply Qle_refl]|].
  split; assumption.
Qed.



Section CompositorClaims.
Context `{Cv2}.

Lemma overlay_bounds_agree (frame_w frame_h w h x y x1 y1 x2 y2 hx1 hy1 hx2 hy2 : Z) :
  overlay_bounds frame_w frame_h w h x y = ((x1, y1, x2, y2), (hx1, hy1, hx2, hy2)) ->
  hx2 - hx1 = overlap_extent frame_w w x /\ hy2 - hy1 = overlap_extent frame_h h y /\
  x2 - x1 = overlap_extent frame_w w x /\ y2 - y1 = overlap_extent frame_h h y.
Proof.
  unfold overlay_bounds, overlap_extent. intros [= <- <- <- <- <- <- <- <-]. lia.
Qed.

(** C5.  When the placement rectangle of the bitmap does not meet the
    frame, [overlay_haircut] returns an array with the frame's pixels, and
    the frame itself keeps them. *)
Theorem overlay_haircut_no_overlap (frame : nat) (haircut : image)
    (hair_region : Region.t) (adjustments : option Adjustments.t)
    (st : State) (fr : image) :
  heap st !! frame = Some fr ->
  overlap_extent (cols fr) (cols haircut) (fst (placement hair_region adjustments)) <= 0 \/
  overlap_extent (rows fr) (rows haircut) (snd (placement hair_region adjustments)) <= 0 ->
  let r := overlay_haircut frame haircut hair_region adjustments st in
  heap (snd r) !! fst r = Some fr /\ heap (snd r) !! frame = Some fr.
Proof.
  intros Hf Hempty. unfold overlay_haircut. step. rewrite Hf.
  unfold placement in Hempty. cbn [fst snd] in Hempty.
  destruct (overlay_bounds _ _ _ _ _ _) as [[[[x1 y1] x2] y2] [[[hx1 hy1] hx2] hy2]] eqn:Eb.
  apply overlay_bounds_agree in Eb. destruct Eb as (Ex & Ey & _).
  assert ((hx1 <? hx2) && (hy1 <? hy2) = false) as ->.
  { apply andb_false_iff. rewrite !Z.ltb_ge. lia. }
  cbn [fst snd heap]. split.
  - apply lookup_snoc.
  - by apply lookup_app_l_Some.
Qed.


End CompositorClaims.

Lemma overlay_haircut_no_overlap_witness :
  let r := overlay_haircut (H := RefCv2) 0 (flat_bitmap 2 2 200) (region_at 5 0 2 2) None
             (one_frame (flat_frame 2 2 100)) in
  heap (snd r) !! fst r = Some (flat_frame 2 2 100) /\
  heap (snd r) !! 0%nat = Some (flat_frame 2 2 100).
Proof.
  apply (overlay_haircut_no_overlap (H := RefCv2) 0 (flat_bitmap 2 2 200)
           (region_at 5 0 2 2) None (one_frame (flat_frame 2 2 100)) (flat_frame 2 2 100)).
  - reflexivity.
  - left. vm_compute. discriminate.
Defined.



(** ** Transform *)





Section Transform.
Context `{Cv2}.







End Transform.




(** ** Asset cache *)

Lemma length_snoc {A} (l : list A) (x : A) : length (l ++ [x]) = S (length l).
Proof. rewrite length_app. simpl. lia. Qed.

Lemma preprocess_count_snoc (key k : string) (tr : list Event) :
  preprocess_count key (tr ++ [EvPreprocess k]) =
    (preprocess_count key tr + if decide (k = key) then 1 else 0)%nat.
Proof.
  unfold preprocess_count. rewrite count_occ_app. f_equal.
  cbn [count_occ].
  destruct (Event_eq_dec (EvPreprocess k) (EvPreprocess key)) as [Heq|Hne];
    destruct (decide (k = key)) as [Hk|Hk]; congruence.
Qed.

Section AssetCache.
Context `{Cv2}.

Lemma preprocess_haircut_last (h : list image) (v : image)
    (cache : gmap string nat) (sessions : gmap string Session.t) (tr : list Event) :
  preprocess_haircut (length h) (mk_State (h ++ [v]) cache sessions tr) =
    (length h, mk_State (h ++ [preprocessed v]) cache sessions tr).
Proof.
  unfold preprocess_haircut, preprocessed. step. rewrite lookup_snoc.
  destruct (chans v) as [c|]; [destruct (c =? 4)|];
    cbn [fst snd heap haircut_cache session_settings trace];
    rewrite ?insert_snoc; reflexivity.
Qed.

Lemma load_haircut_absent (W : World) (haircut_path gender : string) (st : State) :
  path_exists W haircut_path = false ->
  load_haircut W haircut_path gender st = (None, st).
Proof. intros He. unfold load_haircut. by rewrite He. Qed.

(** A cache hit returns a new array holding the cached pixels; the cache,
    the cached entry and the trace are as before. *)
Lemma load_haircut_hit (W : World) (haircut_path gender : string) (st : State)
    (cached : nat) (v : image) :
  path_exists W haircut_path = true ->
  haircut_cache st !! cache_key_of gender haircut_path = Some cached ->
  heap st !! cached = Some v ->
  load_haircut W haircut_path gender st =
    (Some (length (heap st)), set_heap st (heap st ++ [v])).
Proof.
  intros He Hc Hv. unfold load_haircut. rewrite He. cbn [negb]. step.
  rewrite Hc, Hv. reflexivity.
Qed.

Lemma load_haircut_dangling (W : World) (haircut_path gender : string) (st : State)
    (cached : nat) :
  path_exists W haircut_path = true ->
  haircut_cache st !! cache_key_of gender haircut_path = Some cached ->
  heap st !! cached = None ->
  load_haircut W haircut_path gender st = (None, st).
Proof.
  intros He Hc Hv. unfold load_haircut. rewrite He. cbn [negb]. step.
  rewrite Hc, Hv. reflexivity.
Qed.

Lemma load_haircut_undecodable (W : World) (haircut_path gender : string) (st : State) :
  path_exists W haircut_path = true ->
  haircut_cache st !! cache_key_of gender haircut_path = None ->
  imread W haircut_path = None ->
  load_haircut W haircut_path gender st = (None, st).
Proof.
  intros He Hc Hr. unfold load_haircut. rewrite He. cbn [negb]. step.
  rewrite Hc, Hr. reflexivity.
Qed.

(** A cache miss on a decodable file: the decoded array (dropped when it
    had to be converted), the preprocessed haircut that is returned, and
    its copy that is cached; [preprocess_haircut] is traced once. *)
Lemma load_haircut_miss (W : World) (haircut_path gender : string) (st : State)
    (raw : image) :
  path_exists W haircut_path = true ->
  haircut_cache st !! cache_key_of gender haircut_path = None ->
  imread W haircut_path = Some raw ->
  let P := preprocessed (ensure_bgra raw) in
  let h := heap st ++ conversion_garbage raw in
  load_haircut W haircut_path gender st =
    (Some (length h),
     mk_State (h ++ [P; P])
              (<[cache_key_of gender haircut_path := S (length h)]> (haircut_cache st))
              (session_settings st)
              (trace st ++ [EvPreprocess (cache_key_of gender haircut_path)])).
Proof.
  intros He Hc Hr P h. unfold load_haircut. rewrite He. cbn [negb]. step.
  rewrite Hc, Hr. unfold P, h, ensure_bgra, conversion_garbage.
  destruct (chans raw) as [c|] eqn:Ec; [destruct (c =? 3) eqn:E3|];
    cbn [heap haircut_cache session_settings trace].
  - rewrite (preprocess_haircut_last (heap st ++ [raw])).
    unfold set_heap. cbn [heap haircut_cache session_settings trace].
    rewrite lookup_snoc. cbn [heap haircut_cache session_settings trace].
    rewrite !length_snoc, <- !(assoc_L (++)). reflexivity.
  - rewrite (preprocess_haircut_last (heap st)).
    unfold set_heap. cbn [heap haircut_cache session_settings trace].
    rewrite lookup_snoc. cbn [heap haircut_cache session_settings trace].
    rewrite app_nil_r, !length_snoc, <- !(assoc_L (++)). reflexivity.
  - rewrite (preprocess_haircut_last (heap st ++ [raw])).
    unfold set_heap. cbn [heap haircut_cache session_settings trace].
    rewrite lookup_snoc. cbn [heap haircut_cache session_settings trace].
    rewrite !length_snoc, <- !(assoc_L (++)). reflexivity.
Qed.

(** What a successful [load_haircut] leaves behind: the returned array and
    a distinct cached array with the same pixels, in a store that extends
    the old one. *)
Lemma load_haircut_post (W : World) (haircut_path gender : string)
    (st st' : State) (l : nat) :
  load_haircut W haircut_path gender st = (Some l, st') ->
  path_exists W haircut_path = true /\
  exists v cached k,
    heap st' = heap st ++ k /\
    heap st' !! l = Some v /\
    haircut_cache st' !! cache_key_of gender haircut_path = Some cached /\
    heap st' !! cached = Some v /\
    cached <> l /\ (length (heap st) <= l)%nat.
Proof.
  intros Hload.
  destruct (path_exists W haircut_path) eqn:He;
    [|rewrite load_haircut_absent in Hload by done; discriminate].
  split; [reflexivity|].
  destruct (haircut_cache st !! cache_key_of gender haircut_path) as [cached|] eqn:Hc.
  - destruct (heap st !! cached) as [v|] eqn:Hv;
      [|rewrite (load_haircut_dangling _ _ _ _ cached) in Hload by done; discriminate].
    rewrite (load_haircut_hit _ _ _ _ cached v) in Hload by done.
    injection Hload as <- <-. exists v, cached, [v].
    unfold set_heap. cbn [heap haircut_cache].
    split; [reflexivity|]. split; [apply lookup_snoc|]. split; [exact Hc|].
    split; [by apply lookup_app_l_Some|]. split; [|lia].
    apply lookup_lt_Some in Hv. lia.
  - destruct (imread W haircut_path) as [raw|] eqn:Hr;
      [|rewrite load_haircut_undecodable in Hload by done; discriminate].
    rewrite (load_haircut_miss _ _ _ _ raw) in Hload by done.
    injection Hload as <- <-. cbn [heap haircut_cache].
    set (h := heap st ++ conversion_garbage raw).
    set (P := preprocessed (ensure_bgra raw)).
    exists P, (S (length h)), (conversion_garbage raw ++ [P; P]).
    split; [unfold h; by rewrite <- (assoc_L (++))|].
    split; [by apply list_lookup_middle|].
    split; [apply lookup_insert_eq|].
    split; [|split; [lia | unfold h; rewrite length_app; lia]].
    change (h ++ [P; P]) with (h ++ [P] ++ [P]). rewrite (assoc_L (++)).
    apply list_lookup_middle. by rewrite length_snoc.
Qed.

(** A failing [load_haircut] changes nothing. *)
Lemma load_haircut_none (W : World) (haircut_path gender : string) (st : State) :
  fst (load_haircut W haircut_path gender st) = None ->
  load_haircut W haircut_path gender st = (None, st).
Proof.
  intros Hn.
  destruct (path_exists W haircut_path) eqn:He; [|by apply load_haircut_absent].
  destruct (haircut_cache st !! cache_key_of gender haircut_path) as [cached|] eqn:Hc.
  - destruct (heap st !! cached) as [v|] eqn:Hv;
      [|by apply (load_haircut_dangling _ _ _ _ cached)].
    rewrite (load_haircut_hit _ _ _ _ cached v) in Hn by done. discriminate.
  - destruct (imread W haircut_path) as [raw|] eqn:Hr;
      [|by apply load_haircut_undecodable].
    rewrite (load_haircut_miss _ _ _ _ raw) in Hn by done. discriminate.
Qed.

(** Cache entries are immutable once created: a call of [load_haircut]
    keeps every entry and every array of the store. *)
Lemma load_haircut_keeps (W : World) (haircut_path gender : string) (st : State)
    (key : string) (cached : nat) :
  haircut_cache st !! key = Some cached ->
  haircut_cache (snd (load_haircut W haircut_path gender st)) !! key = Some cached /\
  exists k, heap (snd (load_haircut W haircut_path gender st)) = heap st ++ k.
Proof.
  intros Hk.
  destruct (load_haircut W haircut_path gender st) as [[l|] st'] eqn:Hload.
  - destruct (load_haircut_post _ _ _ _ _ _ Hload) as (He & v & c & k & Hext & _).
    cbn [snd]. split; [|by exists k].
    destruct (haircut_cache st !! cache_key_of gender haircut_path) as [c0|] eqn:Hc.
    + destruct (heap st !! c0) as [v0|] eqn:Hv0;
        [|rewrite (load_haircut_dangling _ _ _ _ c0) in Hload by done; discriminate].
      rewrite (load_haircut_hit _ _ _ _ c0 v0) in Hload by done.
      by injection Hload as <- <-.
    + destruct (imread W haircut_path) as [raw|] eqn:Hr;
        [|rewrite load_haircut_undecodable in Hload by done; discriminate].
      rewrite (load_haircut_miss _ _ _ _ raw) in Hload by done.
      injection Hload as <- <-. cbn [haircut_cache].
      rewrite lookup_insert_ne; [exact Hk | congruence].
  - pose proof (load_haircut_none W haircut_path gender st) as Hn.
    rewrite Hload in Hn. specialize (Hn eq_refl). injection Hn as ->.
    cbn [snd]. split; [exact Hk|]. exists []. by rewrite app_nil_r.
Qed.

Lemma run_loads_keeps (calls : list (World * string * string)) (st : State)
    (key : string) (cached : nat) :
  haircut_cache st !! key = Some cached ->
  haircut_cache (run_loads calls st) !! key = Some cached /\
  exists k, heap (run_loads calls st) = heap st ++ k.
Proof.
  revert st. induction calls as [|[[W haircut_path] gender] rest IH]; intros st Hk.
  - split; [exact Hk|]. exists []. by rewrite app_nil_r.
  - simpl. destruct (load_haircut_keeps W haircut_path gender st key cached Hk)
      as (Hk1 & k1 & Hext1).
    destruct (IH _ Hk1) as (Hk2 & k2 & Hext2).
    split; [exact Hk2|]. exists (k1 ++ k2).
    by rewrite Hext2, Hext1, (assoc_L (++)).
Qed.

(** C6.  Two calls of [load_haircut] with the same arguments that both
    succeed, with any other loads between them, return arrays with the same
    pixels; the two arrays and the cache entry are three different arrays, so
    writing to one of the returned arrays, between the calls or after them,
    changes neither the other nor the cache entry. *)
Theorem load_haircut_round_trip (W1 W2 : World) (haircut_path gender : string)
    (between : list (World * string * string)) (st st1 st2 : State) (l1 l2 : nat) :
  load_haircut W1 haircut_path gender st = (Some l1, st1) ->
  load_haircut W2 haircut_path gender (run_loads between st1) = (Some l2, st2) ->
  exists v cached,
    heap st1 !! l1 = Some v /\ heap st2 !! l1 = Some v /\ heap st2 !! l2 = Some v /\
    haircut_cache st2 !! cache_key_of gender haircut_path = Some cached /\
    heap st2 !! cached = Some v /\
    l1 <> l2 /\ cached <> l1 /\ cached <> l2 /\
    (forall v', heap (snd (write l1 v' st2)) !! l2 = Some v /\
                heap (snd (write l1 v' st2)) !! cached = Some v) /\
    (forall v', heap (snd (write l2 v' st2)) !! l1 = Some v /\
                heap (snd (write l2 v' st2)) !! cached = Some v) /\
    (forall v', exists st2',
       load_haircut W2 haircut_path gender (snd (write l1 v' (run_loads between st1))) =
         (Some l2, st2') /\
       heap st2' !! l2 = Some v /\
       haircut_cache st2' !! cache_key_of gender haircut_path = Some cached /\
       heap st2' !! cached = Some v).
Proof.
  intros Hload1 Hload2.
  destruct (load_haircut_post _ _ _ _ _ _ Hload1)
    as (_ & v & cached & k & Hk & Hl1 & Hc1 & Hcv1 & Hne & _).
  destruct (run_loads_keeps between st1 _ cached Hc1) as (Hc & kb & Hkb).
  set (stb := run_loads between st1) in *.
  assert (Hlb : heap stb !! l1 = Some v) by (rewrite Hkb; by apply lookup_app_l_Some).
  assert (Hcv : heap stb !! cached = Some v) by (rewrite Hkb; by apply lookup_app_l_Some).
  destruct (load_haircut_post _ _ _ _ _ _ Hload2) as (He2 & _).
  rewrite (load_haircut_hit _ _ _ _ cached v He2 Hc Hcv) in Hload2.
  injection Hload2 as <- <-. unfold set_heap. cbn [heap haircut_cache].
  pose proof (lookup_lt_Some _ _ _ Hlb) as Hlt1.
  pose proof (lookup_lt_Some _ _ _ Hcv) as Hltc.
  exists v, cached.
  split; [exact Hl1|]. split; [by apply lookup_app_l_Some|].
  split; [apply lookup_snoc|]. split; [exact Hc|].
  split; [by apply lookup_app_l_Some|].
  split; [lia|]. split; [exact Hne|]. split; [lia|].
  split; [|split].
  - intros v'. step. rewrite !list_lookup_insert_ne by lia.
    split; [apply lookup_snoc | by apply lookup_app_l_Some].
  - intros v'. step. rewrite insert_snoc.
    split; by apply lookup_app_l_Some.
  - intros v'. step.
    eexists. split.
    + rewrite (load_haircut_hit _ _ _ _ cached v He2).
      * unfold set_heap. cbn [heap haircut_cache session_settings trace].
        rewrite length_insert. reflexivity.
      * exact Hc.
      * cbn [heap]. by rewrite list_lookup_insert_ne.
    + cbn [heap haircut_cache]. split; [|split; [exact Hc|]].
      * rewrite <- (length_insert (heap stb) l1 v'). apply lookup_snoc.
      * apply lookup_app_l_Some. by rewrite list_lookup_insert_ne.
Qed.

Lemma load_haircut_inv (W : World) (haircut_path gender : string) (st : State) :
  cache_inv st -> cache_inv (snd (load_haircut W haircut_path gender st)).
Proof.
  intros [Hcount Hvalid].
  destruct (path_exists W haircut_path) eqn:He;
    [|by rewrite load_haircut_absent].
  destruct (haircut_cache st !! cache_key_of gender haircut_path) as [cached|] eqn:Hc.
  - destruct (Hvalid _ _ Hc) as [v Hv].
    rewrite (load_haircut_hit _ _ _ _ cached v) by done.
    unfold cache_inv, set_heap. cbn [snd heap haircut_cache trace].
    split; [exact Hcount|]. intros key c Hkc.
    destruct (Hvalid _ _ Hkc) as [v' Hv']. exists v'. by apply lookup_app_l_Some.
  - destruct (imread W haircut_path) as [raw|] eqn:Hr;
      [|by rewrite load_haircut_undecodable].
    rewrite (load_haircut_miss _ _ _ _ raw) by done.
    unfold cache_inv. cbn [snd heap haircut_cache trace]. split.
    + intros key. rewrite preprocess_count_snoc, Hcount.
      destruct (decide (cache_key_of gender haircut_path = key)) as [<-|Hne].
      * rewrite Hc, lookup_insert_eq. reflexivity.
      * rewrite lookup_insert_ne by done. lia.
    + intros key c.
      destruct (decide (cache_key_of gender haircut_path = key)) as [<-|Hne].
      * rewrite lookup_insert_eq. intros [= <-].
        apply lookup_lt_is_Some. rewrite !length_app. simpl. lia.
      * rewrite lookup_insert_ne by done. intros Hkc.
        destruct (Hvalid _ _ Hkc) as [v' Hv']. exists v'.
        rewrite <- (assoc_L (++)). by apply lookup_app_l_Some.
Qed.



End AssetCache.

Lemma load_haircut_round_trip_witness :
  let W := world_with (flat_bitmap 2 2 200) None in
  let st := one_frame (flat_frame 2 2 100) in
  let between := [(W, "app/static/haircuts/female/bob.png", "female")] in
  let r1 := load_haircut (H := RefCv2) W "app/static/haircuts/male/fade.png" "male" st in
  let r2 := load_haircut (H := RefCv2) W "app/static/haircuts/male/fade.png" "male"
              (run_loads (H := RefCv2) between (snd r1)) in
  exists v,
    heap (snd r2) !! 1%nat = Some v /\ heap (snd r2) !! 5%nat = Some v /\
    haircut_cache (snd r2) !! "male_fade.png" = Some 2%nat /\
    heap (snd r2) !! 2%nat = Some v.
Proof.
  intros W st between r1 r2.
  destruct (load_haircut_round_trip (H := RefCv2) W W
              "app/static/haircuts/male/fade.png" "male" between st (snd r1) (snd r2) 1 5)
    as (v & cached & _ & Hl1 & Hl2 & Hc & Hcv & _).
  - vm_compute. reflexivity.
  - vm_compute. reflexivity.
  - exists v. split; [exact Hl1|]. split; [exact Hl2|].
    assert (Hk : cache_key_of "male" "app/static/haircuts/male/fade.png" = "male_fade.png")
      by reflexivity.
    rewrite Hk in Hc.
    assert (Hc2 : haircut_cache (snd r2) !! "male_fade.png" = Some 2%nat)
      by (vm_compute; reflexivity).
    split; [exact Hc2|].
    rewrite Hc2 in Hc. injection Hc as <-. exact Hcv.
Defined.


(** ** Pipeline *)

Section Pipeline.
Context `{Cv2}.

Lemma resolve_unresolved (W : World) (haircut_name gender : string) :
  asset_unresolved W haircut_name gender <->
  resolve_haircut_path W haircut_name gender = None.
Proof.
  unfold asset_unresolved, resolve_haircut_path.
  destruct (path_exists W ("app/static/haircuts/" +:+ gender +:+ "/" +:+ haircut_name))
    eqn:E1; cbn [negb].
  - rewrite E1. cbn [negb]. split; [intros (? & _); discriminate | discriminate].
  - destruct (path_exists W ("app/static/haircuts/custom/" +:+ haircut_name)) eqn:E2;
      cbn [negb].
    + split; [intros (_ & ? & _); discriminate | discriminate].
    + destruct (path_exists W ("app/static/haircuts/custom/" +:+ basename haircut_name));
        split; try tauto; try discriminate.
      intros (_ & _ & ?). discriminate.
Qed.

Lemma detect_face_eq (W : World) (frame : nat) (st : State) :
  detect_face W frame st =
    (v ← heap st !! frame; detected W v,
     mk_State (heap st) (haircut_cache st) (session_settings st)
              (trace st ++ [EvDetect frame])).
Proof.
  unfold detect_face. step. by destruct (heap st !! frame).
Qed.

(** After a successful load the pipeline runs the detector once, and from
    then on only allocates. *)
Lemma apply_haircut_loaded (W : World) (frame : nat) (haircut_name gender : string)
    (session_id : option string) (st st1 : State) (haircut_path : string) (haircut : nat) :
  resolve_haircut_path W haircut_name gender = Some haircut_path ->
  load_haircut W haircut_path gender st = (Some haircut, st1) ->
  exists k,
    snd (apply_haircut W frame haircut_name gender session_id st) =
      mk_State (heap st1 ++ k) (haircut_cache st1) (session_settings st1)
               (trace st1 ++ [EvDetect frame]).
Proof.
  intros Hres Hload. unfold apply_haircut. rewrite Hres.
  unfold mbind at 1. unfold M_bind at 1. rewrite Hload.
  unfold mbind at 1. unfold M_bind at 1. rewrite detect_face_eq.
  destruct (heap st1 !! frame) as [fr|] eqn:Hf; cbn [mbind option_bind];
    [|exists []; by rewrite app_nil_r].
  destruct (detected W fr) as [landmarks|]; [|exists []; by rewrite app_nil_r].
  step. rewrite Hf.
  destruct (heap st1 !! haircut) as [hc|]; [|exists []; by rewrite app_nil_r].
  destruct (get_hair_region landmarks (rows fr, cols fr)) as [hair_region|];
    [|exists []; by rewrite app_nil_r].
  set (st2 := mk_State (heap st1) (haircut_cache st1) (session_settings st1)
                       (trace st1 ++ [EvDetect frame])).
  destruct (truthy session_id) as [sid|]; cbv beta iota;
  match goal with |- context [overlay_haircut ?f ?t ?r ?adj st2] =>
    destruct (overlay_haircut_alloc f t r adj st2 fr Hf) as (out & Hout & _);
    destruct (overlay_haircut f t r adj st2) as [result st3]
  end;
  cbn [snd] in *; subst st3; exists [out]; reflexivity.
Qed.

(** The store only grows during [apply_haircut]: arrays that exist before
    the call keep their pixels. *)
Lemma apply_haircut_extends (W : World) (frame : nat) (haircut_name gender : string)
    (session_id : option string) (st : State) :
  exists k,
    heap (snd (apply_haircut W frame haircut_name gender session_id st)) = heap st ++ k.
Proof.
  destruct (resolve_haircut_path W haircut_name gender) as [haircut_path|] eqn:Hres;
    [|unfold apply_haircut; rewrite Hres; exists []; by rewrite app_nil_r].
  destruct (load_haircut W haircut_path gender st) as [[haircut|] st1] eqn:Hload.
  - destruct (apply_haircut_loaded W frame haircut_name gender session_id st st1
                haircut_path haircut Hres Hload) as [k ->].
    destruct (load_haircut_post _ _ _ _ _ _ Hload) as (_ & _ & _ & k1 & -> & _).
    exists (k1 ++ k). cbn [heap]. by rewrite (assoc_L (++)).
  - pose proof (load_haircut_none W haircut_path gender st) as Hn.
    rewrite Hload in Hn. specialize (Hn eq_refl). injection Hn as ->.
    unfold apply_haircut. rewrite Hres. step. rewrite Hload.
    exists []. by rewrite app_nil_r.
Qed.


(** C9.  [overlay_haircut], and with it the whole of [apply_haircut], leaves
    the pixels of the frame it is given as they are, whichever path is
    taken. *)
Theorem frame_not_mutated (W : World) (frame : nat) (haircut : image)
    (hair_region : Region.t) (adjustments : option Adjustments.t)
    (haircut_name gender : string) (session_id : option string)
    (st : State) (fr : image) :
  heap st !! frame = Some fr ->
  heap (snd (overlay_haircut frame haircut hair_region adjustments st)) !! frame = Some fr /\
  heap (snd (apply_haircut W frame haircut_name gender session_id st)) !! frame = Some fr.
Proof.
  intros Hf. split.
  - destruct (overlay_haircut_alloc frame haircut hair_region adjustments st fr Hf)
      as (out & -> & _).
    cbn [set_heap heap]. by apply lookup_app_l_Some.
  - destruct (apply_haircut_extends W frame haircut_name gender session_id st) as [k ->].
    by apply lookup_app_l_Some.
Qed.

(** C10.  When the asset is in none of the three places, or is found but
    cannot be loaded, [apply_haircut] returns the frame with
    [face_detected = False] and changes nothing: no detector call is
    traced.  When the asset is loaded, the detector call is traced once,
    after everything [load_haircut] traced. *)
Theorem apply_haircut_asset_first (W : World) (frame : nat)
    (haircut_name gender : string) (session_id : option string) (st : State) :
  let r := apply_haircut W frame haircut_name gender session_id st in
  (asset_unresolved W haircut_name gender -> r = ((frame, false), st)) /\
  (forall haircut_path,
     resolve_haircut_path W haircut_name gender = Some haircut_path ->
     fst (load_haircut W haircut_path gender st) = None ->
     r = ((frame, false), st)) /\
  (forall haircut_path haircut st1,
     resolve_haircut_path W haircut_name gender = Some haircut_path ->
     load_haircut W haircut_path gender st = (Some haircut, st1) ->
     trace (snd r) = trace st1 ++ [EvDetect frame]).
Proof.
  intros r. split; [|split].
  - intros Hun. apply resolve_unresolved in Hun.
    unfold r, apply_haircut. by rewrite Hun.
  - intros haircut_path Hres Hnone.
    apply load_haircut_none in Hnone.
    unfold r, apply_haircut. rewrite Hres. step. by rewrite Hnone.
  - intros haircut_path haircut st1 Hres Hload.
    destruct (apply_haircut_loaded W frame haircut_name gender session_id st st1
                haircut_path haircut Hres Hload) as [k Hk].
    unfold r. by rewrite Hk.
Qed.

End Pipeline.


Lemma frame_not_mutated_witness :
  let st := one_frame (flat_frame 4 4 100) in
  let W := world_with (flat_bitmap 2 2 200) (Some centered_face) in
  heap (snd (overlay_haircut (H := RefCv2) 0 (flat_bitmap 2 2 200) (region_at 1 1 2 2)
               None st)) !! 0%nat = Some (flat_frame 4 4 100) /\
  heap (snd (apply_haircut (H := RefCv2) W 0 "fade.png" "male" None st)) !! 0%nat =
    Some (flat_frame 4 4 100).
Proof.
  intros st W.
  apply (frame_not_mutated (H := RefCv2) W 0 (flat_bitmap 2 2 200) (region_at 1 1 2 2)
           None "fade.png" "male" None st (flat_frame 4 4 100)).
  reflexivity.
Defined.

Lemma apply_haircut_asset_first_witness :
  let st := one_frame (flat_frame 4 4 100) in
  apply_haircut (H := RefCv2) (empty_world (Some centered_face)) 0 "fade.png" "male" None st =
    ((0%nat, false), st).
Proof.
  intros st.
  apply (proj1 (apply_haircut_asset_first (H := RefCv2) (empty_world (Some centered_face))
                  0 "fade.png" "male" None st)).
  repeat split.
Defined.

(** The pipeline on an 8×8 frame with a centred face: the composed frame is
    a new array and the face is reported. *)
Example apply_haircut_composes :
  let st := one_frame (flat_frame 8 8 100) in
  let W := world_with (flat_bitmap 2 2 200) (Some centered_face) in
  fst (apply_haircut (H := RefCv2) W 0 "fade.png" "male" None st) = (3%nat, true).
Proof. vm_compute. reflexivity. Qed.

(** ** Sample runs *)

Example basename_nested : basename "app/static/haircuts/male/fade.png" = "fade.png".
Proof. reflexivity. Qed.

Example basename_trailing_slash : basename "custom/" = "".
Proof. reflexivity. Qed.

Example cache_key_by_category :
  cache_key_of "female" "app/static/haircuts/custom/bob.png" = "female_bob.png".
Proof. reflexivity. Qed.

Example hair_region_centered :
  get_hair_region centered_face (480, 640) = Some (region_at 176 0 288 369).
Proof. vm_compute. reflexivity. Qed.

Example yaw_is_clipped :
  (rotation_angle_of (pose_with_yaw (45 # 1)) Adjustments.empty == 30 # 1)%Q.
Proof. vm_compute. reflexivity. Qed.

Example failed_pose_keeps_user_rotation :
  (rotation_angle_of FAILED_POSE (Adjustments.mk None (Some (5 # 1)) None None) == 5 # 1)%Q.
Proof. vm_compute. reflexivity. Qed.

Example covering_size_of_sample :
  covering_size (flat_bitmap 500 500 200) (region_at 200 50 240 120) = (240, 240).
Proof. vm_compute. reflexivity. Qed.

(** * Further properties of the code *)

(** ** Face utilities *)

Lemma region_lookups (landmarks : LandmarkSet) :
  (454 < length landmarks)%nat ->
  exists a b c d,
    landmarks !! 234%nat = Some a /\ landmarks !! 454%nat = Some b /\
    landmarks !! 8%nat = Some c /\ landmarks !! 10%nat = Some d.
Proof.
  intros Hlen.
  destruct (lookup_lt_is_Some_2 landmarks 234) as [a Ha]; [lia|].
  destruct (lookup_lt_is_Some_2 landmarks 454) as [b Hb]; [lia|].
  destruct (lookup_lt_is_Some_2 landmarks 8) as [c Hc]; [lia|].
  destruct (lookup_lt_is_Some_2 landmarks 10) as [d Hd]; [lia|].
  by exists a, b, c, d.
Qed.

Lemma forehead_none_iff (landmarks : LandmarkSet) (image_shape : Shape2) :
  get_forehead_region landmarks image_shape = None <-> (length landmarks <= 454)%nat.
Proof.
  destruct image_shape as [h w]. unfold get_forehead_region. split.
  - intros Hnone. destruct (decide (length landmarks <= 454)%nat) as [|Hgt]; [done|].
    destruct (region_lookups landmarks ltac:(lia)) as (a & b & c & d & Ha & Hb & Hc & Hd).
    rewrite Ha in Hnone. cbn [mbind option_bind] in Hnone.
    rewrite Hb in Hnone. cbn [mbind option_bind] in Hnone.
    rewrite Hc in Hnone. cbn [mbind option_bind] in Hnone.
    rewrite Hd in Hnone. discriminate.
  - intros Hlen. destruct (landmarks !! 234%nat); [|done]. cbn [mbind option_bind].
    destruct (landmarks !! 454%nat) eqn:E; [|done].
    apply lookup_lt_Some in E. lia.
Qed.

(** The forehead is at least 10×10 and its centre lies in it, whatever the
    landmark coordinates. *)
Lemma forehead_min_size (landmarks : LandmarkSet) (image_shape : Shape2) (f : Region.t) :
  get_forehead_region landmarks image_shape = Some f ->
  10 <= Region.width f /\ 10 <= Region.height f /\ 0 <= Region.y f /\
  Region.x f <= Region.center_x f <= Region.x f + Region.width f /\
  Region.y f <= Region.center_y f <= Region.y f + Region.height f.
Proof.
  destruct image_shape as [h w]. unfold get_forehead_region.
  destruct (landmarks !! 234%nat) as [lt|]; [|done].
  destruct (landmarks !! 454%nat) as [rt|]; [|done].
  destruct (landmarks !! 8%nat) as [bc|]; [|done].
  destruct (landmarks !! 10%nat) as [tf|]; [|done].
  cbn [mbind option_bind]. intros Heq. apply (inj Some) in Heq. subst f.
  cbn [Region.x Region.y Region.width Region.height Region.center_x Region.center_y].
  match goal with |- context [Z.max 10 (?a - ?b)] =>
    generalize (Z.le_max_l 10 (a - b)); generalize (Z.max 10 (a - b)); intros m1 Hm1
  end.
  match goal with |- context [Z.max 10 ?a] =>
    generalize (Z.le_max_l 10 a); generalize (Z.max 10 a); intros m2 Hm2
  end.
  pose proof (Z.div_pos m1 2 ltac:(lia) ltac:(lia)).
  pose proof (Z.div_pos m2 2 ltac:(lia) ltac:(lia)).
  pose proof (Z.div_le_upper_bound m1 2 m1 ltac:(lia) ltac:(lia)).
  pose proof (Z.div_le_upper_bound m2 2 m2 ltac:(lia) ltac:(lia)).
  lia.
Qed.

(** X1.  The region estimators answer [None] exactly when the landmark list
    has fewer than 455 entries; a forehead they return is at least 10 pixels
    wide and high, does not start above the frame and contains its centre,
    for any landmark coordinates. *)
Theorem region_estimators_need_topology (landmarks : LandmarkSet) (image_shape : Shape2) :
  (get_forehead_region landmarks image_shape = None <-> (length landmarks <= 454)%nat) /\
  (get_hair_region landmarks image_shape = None <-> (length landmarks <= 454)%nat) /\
  (forall f, get_forehead_region landmarks image_shape = Some f ->
     10 <= Region.width f /\ 10 <= Region.height f /\ 0 <= Region.y f /\
     Region.x f <= Region.center_x f <= Region.x f + Region.width f /\
     Region.y f <= Region.center_y f <= Region.y f + Region.height f).
Proof.
  split; [apply forehead_none_iff|]. split.
  - rewrite <- (forehead_none_iff landmarks image_shape). unfold get_hair_region.
    destruct (get_forehead_region landmarks image_shape); [|done].
    destruct image_shape. split; discriminate.
  - apply forehead_min_size.
Qed.

Lemma region_estimators_need_topology_witness :
  10 <= 160 /\ 10 <= 168 /\ 0 <= 12 /\ 240 <= 320 <= 240 + 160 /\ 12 <= 96 <= 12 + 168.
Proof.
  apply (proj2 (proj2 (region_estimators_need_topology centered_face (480, 640)))
           (Region.mk 240 12 160 168 320 96)).
  vm_compute. reflexivity.
Defined.

(** X2.  Whenever the forehead lies inside the frame, the hair region
    covers it. *)
Theorem hair_region_covers_forehead (landmarks : LandmarkSet) (h w : Z) (f r : Region.t) :
  get_forehead_region landmarks (h, w) = Some f ->
  get_hair_region landmarks (h, w) = Some r ->
  0 <= Region.x f -> Region.x f + Region.width f <= w ->
  Region.y f + Region.height f <= h ->
  Region.x r <= Region.x f /\
  Region.x f + Region.width f <= Region.x r + Region.width r /\
  Region.y r <= Region.y f /\
  Region.y f + Region.height f <= Region.y r + Region.height r.
Proof.
  intros Hf Hr Hx Hxw Hyh.
  destruct (forehead_min_size landmarks (h, w) f Hf) as (Hw10 & Hh10 & Hy0 & _).
  unfold get_hair_region in Hr. rewrite Hf in Hr.
  apply (inj Some) in Hr. subst r.
  cbn [Region.x Region.y Region.width Region.height].
  rewrite !py_int_scale.
  pose proof (Z.quot_pos (Region.width f * 4) 10 ltac:(lia) ltac:(lia)).
  pose proof (Z.quot_pos (Region.height f * 6) 10 ltac:(lia) ltac:(lia)).
  pose proof (Z.quot_le_mono (Region.width f * 4) (Region.width f * 8) 10
                ltac:(lia) ltac:(lia)).
  pose proof (Z.quot_le_mono (Region.height f * 6) (Region.height f * 12) 10
                ltac:(lia) ltac:(lia)).
  lia.
Qed.

Lemma hair_region_covers_forehead_witness :
  176 <= 240 /\ 240 + 160 <= 176 + 288 /\ 0 <= 12 /\ 12 + 168 <= 0 + 369.
Proof.
  apply (hair_region_covers_forehead centered_face 480 640
           (Region.mk 240 12 160 168 320 96) (region_at 176 0 288 369)).
  - vm_compute. reflexivity.
  - vm_compute. reflexivity.
  - cbn. lia.
  - cbn. lia.
  - cbn. lia.
Defined.

Lemma foldr_min_spec (a : Z) (rest : list Z) :
  foldr Z.min a rest ∈ a :: rest /\ forall v, v ∈ a :: rest -> foldr Z.min a rest <= v.
Proof.
  induction rest as [|b rest [Hin Hle]]; simpl.
  - split; [apply elem_of_cons; by left|].
    intros v Hv. apply list_elem_of_singleton in Hv. lia.
  - split.
    + rewrite !elem_of_cons. rewrite elem_of_cons in Hin.
      destruct (Z.min_spec b (foldr Z.min a rest)) as [[_ Heq]|[_ Heq]]; rewrite Heq; tauto.
    + intros v Hv. rewrite !elem_of_cons in Hv.
      assert (Hc : v = b \/ foldr Z.min a rest <= v).
      { destruct Hv as [Hv|[Hv|Hv]]; [right|by left|right];
          apply Hle; apply elem_of_cons; tauto. }
      lia.
Qed.

Lemma foldr_max_spec (a : Z) (rest : list Z) :
  foldr Z.max a rest ∈ a :: rest /\ forall v, v ∈ a :: rest -> v <= foldr Z.max a rest.
Proof.
  induction rest as [|b rest [Hin Hle]]; simpl.
  - split; [apply elem_of_cons; by left|].
    intros v Hv. apply list_elem_of_singleton in Hv. lia.
  - split.
    + rewrite !elem_of_cons. rewrite elem_of_cons in Hin.
      destruct (Z.max_spec b (foldr Z.max a rest)) as [[_ Heq]|[_ Heq]]; rewrite Heq; tauto.
    + intros v Hv. rewrite !elem_of_cons in Hv.
      assert (Hc : v = b \/ v <= foldr Z.max a rest).
      { destruct Hv as [Hv|[Hv|Hv]]; [right|by left|right];
          apply Hle; apply elem_of_cons; tauto. }
      lia.
Qed.

Lemma py_min_of_spec (l : list Z) (m : Z) :
  py_min_of l = Some m -> m ∈ l /\ forall v, v ∈ l -> m <= v.
Proof.
  destruct l as [|a rest]; [done|]. intros [= <-]. apply foldr_min_spec.
Qed.

Lemma py_max_of_spec (l : list Z) (m : Z) :
  py_max_of l = Some m -> m ∈ l /\ forall v, v ∈ l -> v <= m.
Proof.
  destruct l as [|a rest]; [done|]. intros [= <-]. apply foldr_max_spec.
Qed.

(** X3.  [get_face_bounding_box] raises exactly on an empty landmark list.
    For normalized landmarks the box it returns lies inside the frame and
    encloses the pixel of every landmark. *)
Theorem face_bounding_box_encloses (landmarks : LandmarkSet) (h w : Z) :
  (get_face_bounding_box landmarks (h, w) = None <-> landmarks = []) /\
  (forall box,
     Forall valid_landmark landmarks -> 0 <= w -> 0 <= h ->
     get_face_bounding_box landmarks (h, w) = Some box ->
     0 <= Box.x box /\ 0 <= Box.y box /\ 0 <= Box.width box /\ 0 <= Box.height box /\
     Box.x box + Box.width box <= w /\ Box.y box + Box.height box <= h /\
     forall p, p ∈ landmarks ->
       Box.x box <= fst (landmark_pixel p (h, w)) <= Box.x box + Box.width box /\
       Box.y box <= snd (landmark_pixel p (h, w)) <= Box.y box + Box.height box).
Proof.
  unfold get_face_bounding_box. split.
  - destruct landmarks as [|p rest]; [done|]. split; discriminate.
  - intros box Hvalid Hw Hh.
    set (xs := (fun landmark => py_int (Landmark.x landmark * inject_Z w)) <$> landmarks).
    set (ys := (fun landmark => py_int (Landmark.y landmark * inject_Z h)) <$> landmarks).
    destruct (py_min_of xs) as [x_lo|] eqn:Exl; [|done].
    destruct (py_max_of xs) as [x_hi|] eqn:Exh; [|done].
    destruct (py_min_of ys) as [y_lo|] eqn:Eyl; [|done].
    destruct (py_max_of ys) as [y_hi|] eqn:Eyh; [|done].
    cbn [mbind option_bind]. intros Heq. apply (inj Some) in Heq. subst box.
    cbn [Box.x Box.y Box.width Box.height].
    destruct (py_min_of_spec _ _ Exl) as [Hxl_in Hxl].
    destruct (py_max_of_spec _ _ Exh) as [Hxh_in Hxh].
    destruct (py_min_of_spec _ _ Eyl) as [Hyl_in Hyl].
    destruct (py_max_of_spec _ _ Eyh) as [Hyh_in Hyh].
    assert (Hxr : forall v, v ∈ xs -> 0 <= v <= w).
    { intros v Hv. apply list_elem_of_fmap in Hv as (p & -> & Hp).
      rewrite Forall_forall in Hvalid. destruct (Hvalid p Hp) as (H0 & H1 & _).
      by apply py_int_normalized. }
    assert (Hyr : forall v, v ∈ ys -> 0 <= v <= h).
    { intros v Hv. apply list_elem_of_fmap in Hv as (p & -> & Hp).
      rewrite Forall_forall in Hvalid. destruct (Hvalid p Hp) as (_ & _ & H0 & H1).
      by apply py_int_normalized. }
    pose proof (Hxr _ Hxl_in). pose proof (Hxr _ Hxh_in).
    pose proof (Hyr _ Hyl_in). pose proof (Hyr _ Hyh_in).
    pose proof (Hxl _ Hxh_in). pose proof (Hyl _ Hyh_in).
    repeat (split; [lia|]).
    intros p Hp. cbn [landmark_pixel fst snd].
    assert (Hpx : py_int (Landmark.x p * inject_Z w) ∈ xs)
      by (apply list_elem_of_fmap; eauto).
    assert (Hpy : py_int (Landmark.y p * inject_Z h) ∈ ys)
      by (apply list_elem_of_fmap; eauto).
    pose proof (Hxl _ Hpx). pose proof (Hxh _ Hpx).
    pose proof (Hyl _ Hpy). pose proof (Hyh _ Hpy). lia.
Qed.

Lemma face_bounding_box_encloses_witness :
  get_face_bounding_box centered_face (480, 640) = Some (Box.mk 240 120 160 120) /\
  0 <= 240 /\ 240 + 160 <= 640 /\ 120 + 120 <= 480.
Proof.
  assert (He : get_face_bounding_box centered_face (480, 640) = Some (Box.mk 240 120 160 120))
    by (vm_compute; reflexivity).
  split; [exact He|].
  destruct (proj2 (face_bounding_box_encloses centered_face 480 640) (Box.mk 240 120 160 120))
    as (Hx & _ & _ & _ & Hxw & Hyh & _).
  - apply landmarks_with_valid; apply valid_landmark_intro; reflexivity.
  - lia.
  - lia.
  - exact He.
  - cbn in *. lia.
Defined.

(** X4.  [get_head_pose] never raises: it reports [success] exactly when it
    returns Euler angles, and reports failure when the landmark list has
    fewer than 292 entries or the solver does not succeed. *)
Theorem head_pose_success_has_angles `{Cv2} (landmarks : LandmarkSet) (image_shape : Shape2) :
  let pose := get_head_pose landmarks image_shape in
  (HeadPose.success pose = true <-> is_Some (HeadPose.euler_angles pose)) /\
  ((length landmarks <= 291)%nat -> pose = FAILED_POSE) /\
  (HeadPose.success pose = false -> pose = FAILED_POSE).
Proof.
  destruct image_shape as [h w]. unfold get_head_pose.
  set (image_point := fun i : nat =>
         p ← landmarks !! i;
         Some (Landmark.x p * inject_Z w, Landmark.y p * inject_Z h)%Q).
  cbv zeta. split; [|split].
  - destruct (mapM _ _) as [pts|]; [|cbn; split; [discriminate | by intros [? ?]]].
    destruct (cv2_solvePnP _ _) as [[[[] rv] tv]|];
      cbn; split; try discriminate; try (by intros [? ?]); eauto.
  - intros Hlen.
    assert (Hnone : mapM image_point [1; 152; 33; 263; 61; 291]%nat = None).
    { apply mapM_None_2, Exists_exists. exists 291%nat.
      split; [repeat (apply elem_of_cons; first [by left | right])|].
      unfold image_point. destruct (landmarks !! 291%nat) eqn:E; [|done].
      apply lookup_lt_Some in E. lia. }
    by rewrite Hnone.
  - destruct (mapM _ _) as [pts|]; [|done].
    destruct (cv2_solvePnP _ _) as [[[[] rv] tv]|]; cbn; [discriminate|done|done].
Qed.

Lemma head_pose_success_has_angles_witness :
  get_head_pose (H := RefCv2) [] (480, 640) = FAILED_POSE.
Proof.
  apply (proj1 (proj2 (head_pose_success_has_angles (H := RefCv2) [] (480, 640)))).
  simpl. lia.
Defined.

(** X5.  Whatever the pose, it contributes at most 30 degrees to the
    rotation: the angle lies within 30 of the user's rotation, and a failed
    pose contributes nothing. *)
Theorem pose_rotation_bounded (head_pose : HeadPose.t) (adjustments : Adjustments.t) :
  let user_rotation := default 0%Q (Adjustments.rotation adjustments) in
  ((-30 # 1) + user_rotation <= rotation_angle_of head_pose adjustments)%Q /\
  (rotation_angle_of head_pose adjustments <= (30 # 1) + user_rotation)%Q /\
  (HeadPose.success head_pose = false ->
     (rotation_angle_of head_pose adjustments == user_rotation)%Q).
Proof.
  intros user_rotation. unfold rotation_angle_of. fold user_rotation.
  destruct (HeadPose.success head_pose).
  - destruct (np_clip_bounds
                (default 0%Q (Euler.y <$> HeadPose.euler_angles head_pose))
                (-30 # 1) (30 # 1) ltac:(done)) as [Hlo Hhi].
    split; [|split; [|discriminate]].
    + apply Qplus_le_compat; [exact Hlo | apply Qle_refl].
    + apply Qplus_le_compat; [exact Hhi | apply Qle_refl].
  - split; [|split].
    + apply Qplus_le_compat; [done | apply Qle_refl].
    + apply Qplus_le_compat; [done | apply Qle_refl].
    + intros _. ring.
Qed.

Lemma pose_rotation_bounded_witness :
  (rotation_angle_of FAILED_POSE (Adjustments.mk None (Some (5 # 1)) None None) == 5 # 1)%Q.
Proof.
  apply (proj2 (proj2 (pose_rotation_bounded FAILED_POSE
                         (Adjustments.mk None (Some (5 # 1)) None None)))).
  reflexivity.
Defined.

(** ** Asset cache, further *)

Section AssetCacheMore.
Context `{Cv2}.

(** X6.  A cache miss on a decodable gray, BGR or BGRA file returns a
    4-channel array of the file's size whose colour channels are the file's
    (the gray level three times for a gray file) and whose alpha channel is
    the blurred alpha of the file, or the blur of an opaque plane when the
    file has no alpha. *)
Theorem load_haircut_normalizes (W : World) (haircut_path gender : string)
    (st : State) (raw : image) :
  path_exists W haircut_path = true ->
  haircut_cache st !! cache_key_of gender haircut_path = None ->
  imread W haircut_path = Some raw ->
  chans raw = None \/ chans raw = Some 3 \/ chans raw = Some 4 ->
  exists l st' v alpha,
    load_haircut W haircut_path gender st = (Some l, st') /\
    heap st' !! l = Some v /\
    chans v = Some 4 /\ rows v = rows raw /\ cols v = cols raw /\
    (forall r c k, 0 <= k < 3 ->
       item v r c k = item raw r c (if chans raw is None then 0 else k)) /\
    (forall r c, item v r c 3 = item (cv2_GaussianBlur alpha) r c 0) /\
    (forall r c k, item alpha r c k = if decide (chans raw = Some 4) then item raw r c 3 else 255).
Proof.
  intros He Hc Hr Hch.
  pose proof (load_haircut_miss W haircut_path gender st raw He Hc Hr) as Hload.
  cbv zeta in Hload.
  set (h := heap st ++ conversion_garbage raw) in *.
  set (P := preprocessed (ensure_bgra raw)) in *.
  exists (length h), (snd (load_haircut W haircut_path gender st)), P,
         (channel 3 (ensure_bgra raw)).
  rewrite Hload. cbn [snd heap].
  split; [reflexivity|]. split; [by apply list_lookup_middle|].
  unfold P, preprocessed, ensure_bgra.
  destruct Hch as [Hch|[Hch|Hch]]; rewrite Hch; cbn; rewrite ?Hch; cbn;
    change (3 + 1 =? 4) with true; cbn; rewrite ?Hch;
    split_and!; try reflexivity.
  all: try (intros r c k Hk; cbn; repeat case_match; first [lia | reflexivity]).
  all: intros r c k; cbn; case_decide; first [congruence | reflexivity].
Qed.

(** X7.  The cache is keyed by category and base name only: after a
    successful load, a load of any existing path with the same base name and
    category is a hit that returns a copy of the first load's pixels, without
    decoding the file and without preprocessing, whatever the file holds. *)
Theorem cache_serves_same_basename (W1 W2 : World) (path1 path2 gender : string)
    (st st1 : State) (l1 : nat) :
  load_haircut W1 path1 gender st = (Some l1, st1) ->
  basename path1 = basename path2 ->
  path_exists W2 path2 = true ->
  exists v,
    heap st1 !! l1 = Some v /\
    load_haircut W2 path2 gender st1 =
      (Some (length (heap st1)), set_heap st1 (heap st1 ++ [v])).
Proof.
  intros Hload Hbase He2.
  destruct (load_haircut_post _ _ _ _ _ _ Hload)
    as (_ & v & cached & k & _ & Hl1 & Hc & Hcv & _).
  exists v. split; [exact Hl1|].
  apply (load_haircut_hit W2 path2 gender st1 cached v He2); [|exact Hcv].
  unfold cache_key_of in *. by rewrite <- Hbase.
Qed.

(** X8.  In a state whose cache entries all refer to arrays, [load_haircut]
    fails exactly when the file does not exist, or is not cached and cannot
    be decoded; a failing call changes nothing.  In particular a cached
    haircut whose file has been removed is not served. *)
Theorem load_haircut_fails_iff (W : World) (haircut_path gender : string) (st : State) :
  cache_inv st ->
  (fst (load_haircut W haircut_path gender st) = None <->
     path_exists W haircut_path = false \/
     (haircut_cache st !! cache_key_of gender haircut_path = None /\
      imread W haircut_path = None)) /\
  (fst (load_haircut W haircut_path gender st) = None ->
     snd (load_haircut W haircut_path gender st) = st).
Proof.
  intros [_ Hvalid]. split.
  - destruct (path_exists W haircut_path) eqn:He;
      [|rewrite load_haircut_absent by done; split; auto].
    destruct (haircut_cache st !! cache_key_of gender haircut_path) as [cached|] eqn:Hc.
    + destruct (Hvalid _ _ Hc) as [v Hv].
      rewrite (load_haircut_hit _ _ _ _ cached v) by done. cbn.
      split; [discriminate|]. intros [?|[? _]]; discriminate.
    + destruct (imread W haircut_path) as [raw|] eqn:Hr.
      * rewrite (load_haircut_miss _ _ _ _ raw) by done. cbn.
        split; [discriminate|]. intros [?|[_ ?]]; discriminate.
      * rewrite load_haircut_undecodable by done. cbn. split; auto.
  - intros Hnone. by rewrite (load_haircut_none _ _ _ _ Hnone).
Qed.

End AssetCacheMore.

Lemma initial_state_inv (h : list image) (sessions : gmap string Session.t) :
  cache_inv (initial_state h sessions).
Proof.
  split; [intros key; reflexivity|].
  intros key cached Hk. cbn in Hk. by rewrite lookup_empty in Hk.
Qed.

Lemma load_haircut_normalizes_witness :
  exists l st' v,
    load_haircut (H := RefCv2) (world_with (flat_frame 2 2 100) None)
      "app/static/haircuts/male/fade.jpg" "male" (initial_state [] ∅) = (Some l, st') /\
    heap st' !! l = Some v /\ chans v = Some 4 /\ rows v = 2 /\ cols v = 2.
Proof.
  destruct (load_haircut_normalizes (H := RefCv2) (world_with (flat_frame 2 2 100) None)
              "app/static/haircuts/male/fade.jpg" "male" (initial_state [] ∅)
              (flat_frame 2 2 100))
    as (l & st' & v & alpha & Hload & Hl & Hch & Hr & Hc & _).
  - reflexivity.
  - reflexivity.
  - reflexivity.
  - right. left. reflexivity.
  - exists l, st', v. by split_and!.
Defined.

Lemma cache_serves_same_basename_witness :
  let W1 := world_with (flat_bitmap 2 2 200) None in
  let W2 := world_with (flat_bitmap 2 2 50) None in
  let r1 := load_haircut (H := RefCv2) W1 "app/static/haircuts/male/fade.png" "male"
              (initial_state [] ∅) in
  exists v,
    heap (snd r1) !! 0%nat = Some v /\
    load_haircut (H := RefCv2) W2 "app/static/haircuts/custom/fade.png" "male" (snd r1) =
      (Some 2%nat, set_heap (snd r1) (heap (snd r1) ++ [v])).
Proof.
  intros W1 W2 r1.
  apply (cache_serves_same_basename (H := RefCv2) W1 W2
           "app/static/haircuts/male/fade.png" "app/static/haircuts/custom/fade.png"
           "male" (initial_state [] ∅) (snd r1) 0).
  - vm_compute. reflexivity.
  - reflexivity.
  - reflexivity.
Defined.

Lemma load_haircut_fails_iff_witness :
  snd (load_haircut (H := RefCv2) (empty_world None) "app/static/haircuts/male/fade.png"
         "male" (initial_state [] ∅)) = initial_state [] ∅.
Proof.
  apply (proj2 (load_haircut_fails_iff (H := RefCv2) (empty_world None)
                  "app/static/haircuts/male/fade.png" "male" (initial_state [] ∅)
                  (initial_state_inv [] ∅))).
  reflexivity.
Defined.

(** ** Compositor, further *)

Section CompositorMore.
Context `{Cv2}.

(** The array [overlay_haircut] answers with: the frame's pixels, or the
    frame's pixels with the covered rectangle rewritten once (the blend) or
    twice (the blend, then the colour match). *)
Lemma overlay_haircut_cases (frame : nat) (haircut : image) (hair_region : Region.t)
    (adjustments : option Adjustments.t) (st : State) (fr : image)
    (x1 y1 x2 y2 : Z) (hrect : Z * Z * Z * Z) :
  heap st !! frame = Some fr ->
  overlay_rects fr haircut hair_region adjustments = ((x1, y1, x2, y2), hrect) ->
  exists out,
    heap (snd (overlay_haircut frame haircut hair_region adjustments st))
      !! fst (overlay_haircut frame haircut hair_region adjustments st) = Some out /\
    (out = fr \/
     (exists b, out = set_slice fr y1 y2 x1 x2 b) \/
     (exists b b', out = set_slice (set_slice fr y1 y2 x1 x2 b) y1 y2 x1 x2 b')).
Proof.
  intros Hf Hrects. unfold overlay_haircut. step. rewrite Hf.
  unfold overlay_rects, placement in Hrects. cbn [fst snd] in Hrects.
  destruct hrect as [[[hx1 hy1] hx2] hy2]. rewrite Hrects.
  assert (Hkeep : (heap st ++ [fr]) !! frame = Some fr) by (by apply lookup_app_l_Some).
  destruct ((hx1 <? hx2) && (hy1 <? hy2));
    [|exists fr; cbn [fst snd heap]; split; [apply lookup_snoc | by left]].
  destruct (chans (slice haircut hy1 hy2 hx1 hx2)) as [c|];
    [|exists fr; cbn [fst snd heap]; split; [exact Hkeep | by left]].
  destruct (c =? 4);
    [|exists fr; cbn [fst snd heap]; split; [apply lookup_snoc | by left]].
  destruct (decide (chans fr = Some 3));
    [|exists fr; cbn [fst snd heap]; split; [exact Hkeep | by left]].
  cbn [heap haircut_cache session_settings trace]. rewrite insert_snoc.
  destruct (Qgtb _ 0);
    [|eexists; cbn [fst snd heap]; split; [apply lookup_snoc | right; left; eauto]].
  unfold color_match_hair.
  destruct (Qgtb _ 0);
    [|eexists; cbn [fst snd heap]; split; [apply lookup_snoc | right; left; eauto]].
  destruct (Qgtb _ 0);
    [|eexists; cbn [fst snd heap]; split; [apply lookup_snoc | right; left; eauto]].
  step. rewrite lookup_snoc. cbn [fst snd heap]. rewrite insert_snoc.
  eexists. split; [apply lookup_snoc | right; right; eauto].
Qed.

(** X9.  The array [overlay_haircut] returns has the shape of the frame, and
    outside the rectangle the bitmap covers its pixels are the frame's. *)
Theorem overlay_haircut_local (frame : nat) (haircut : image) (hair_region : Region.t)
    (adjustments : option Adjustments.t) (st : State) (fr : image) :
  heap st !! frame = Some fr ->
  let r := overlay_haircut frame haircut hair_region adjustments st in
  let rect := fst (overlay_rects fr haircut hair_region adjustments) in
  exists out,
    heap (snd r) !! fst r = Some out /\
    same_shape out fr /\
    forall i j k, ~ in_rect rect i j -> item out i j k = item fr i j k.
Proof.
  intros Hf r rect.
  destruct (overlay_rects fr haircut hair_region adjustments) as [[[[x1 y1] x2] y2] hrect]
    eqn:Hrects.
  destruct (overlay_haircut_cases frame haircut hair_region adjustments st fr
              x1 y1 x2 y2 hrect Hf Hrects) as (out & Hout & Hcases).
  exists out. split; [exact Hout|].
  assert (Hoff : forall i j, ~ in_rect rect i j ->
            (y1 <=? i) && (i <? y2) && (x1 <=? j) && (j <? x2) = false).
  { intros i j Hn. unfold rect, in_rect in Hn. cbn [fst] in Hn.
    apply not_true_is_false. rewrite !andb_true_iff, !Z.leb_le, !Z.ltb_lt. lia. }
  destruct Hcases as [->|[[b ->]|(b & b' & ->)]].
  - split; [by split_and!|]. reflexivity.
  - split; [by split_and!|]. intros i j k Hn. cbn [set_slice item].
    by rewrite (Hoff i j Hn).
  - split; [by split_and!|]. intros i j k Hn. cbn [set_slice item].
    by rewrite (Hoff i j Hn).
Qed.

(** X10.  A bitmap that is not 4-channel, or a frame that is not 3-channel,
    is not composited: the array returned has exactly the frame's pixels. *)
Theorem overlay_haircut_needs_alpha (frame : nat) (haircut : image)
    (hair_region : Region.t) (adjustments : option Adjustments.t)
    (st : State) (fr : image) :
  heap st !! frame = Some fr ->
  chans haircut <> Some 4 \/ chans fr <> Some 3 ->
  let r := overlay_haircut frame haircut hair_region adjustments st in
  heap (snd r) !! fst r = Some fr.
Proof.
  intros Hf Hbad. unfold overlay_haircut. step. rewrite Hf.
  destruct (overlay_bounds _ _ _ _ _ _) as [[[[x1 y1] x2] y2] [[[hx1 hy1] hx2] hy2]].
  assert (Hkeep : (heap st ++ [fr]) !! frame = Some fr) by (by apply lookup_app_l_Some).
  destruct ((hx1 <? hx2) && (hy1 <? hy2)); [|apply lookup_snoc].
  cbn [slice chans].
  destruct (chans haircut) as [c|] eqn:Ec; [|exact Hkeep].
  destruct (c =? 4) eqn:E4; [|apply lookup_snoc].
  apply Z.eqb_eq in E4. subst c.
  destruct (decide (chans fr = Some 3)); [|exact Hkeep].
  destruct Hbad; congruence.
Qed.

(** X11.  The user's pixel offsets act as a move of the hair region:
    compositing with offsets [(dx, dy)] is compositing at the region moved by
    [(dx, dy)] with no offsets. *)
Theorem overlay_offset_is_shift (frame : nat) (haircut : image) (hair_region : Region.t)
    (adjustments : Adjustments.t) (st : State) :
  overlay_haircut frame haircut hair_region (Some adjustments) st =
  overlay_haircut frame haircut
    (shift_region hair_region (default 0 (Adjustments.x adjustments))
                              (default 0 (Adjustments.y adjustments)))
    None st.
Proof.
  unfold overlay_haircut, shift_region.
  cbn [default Adjustments.empty Adjustments.x Adjustments.y Region.x Region.y].
  by rewrite !Z.add_0_r.
Qed.

End CompositorMore.

Lemma overlay_haircut_local_witness :
  let st := one_frame (flat_frame 4 4 100) in
  let r := overlay_haircut (H := RefCv2) 0 (flat_bitmap 2 2 200) (region_at 1 1 2 2) None st in
  exists out,
    heap (snd r) !! fst r = Some out /\ same_shape out (flat_frame 4 4 100) /\
    item out 0 0 0 = 100 /\ item out 3 3 2 = 100.
Proof.
  intros st r.
  destruct (overlay_haircut_local (H := RefCv2) 0 (flat_bitmap 2 2 200) (region_at 1 1 2 2)
              None st (flat_frame 4 4 100) eq_refl) as (out & Hout & Hshape & Hoff).
  exists out. split; [exact Hout|]. split; [exact Hshape|]. split.
  - rewrite (Hoff 0 0 0); [reflexivity|]. cbn. lia.
  - rewrite (Hoff 3 3 2); [reflexivity|]. cbn. lia.
Defined.

Lemma overlay_haircut_needs_alpha_witness :
  let st := one_frame (flat_frame 4 4 100) in
  let r := overlay_haircut (H := RefCv2) 0 (flat_frame 2 2 200) (region_at 1 1 2 2) None st in
  heap (snd r) !! fst r = Some (flat_frame 4 4 100).
Proof.
  apply (overlay_haircut_needs_alpha (H := RefCv2) 0 (flat_frame 2 2 200) (region_at 1 1 2 2)
           None (one_frame (flat_frame 4 4 100)) (flat_frame 4 4 100) eq_refl).
  left. discriminate.
Defined.

(** ** Pipeline, further *)

Section PipelineMore.
Context `{Cv2}.


(** [apply_haircut] once the asset is loaded: detection, region, and then
    transform and overlay with the session's adjustments. *)
Lemma apply_haircut_after_load (W : World) (frame : nat) (haircut_name gender : string)
    (session_id : option string) (st st1 : State) (haircut_path : string)
    (haircut : nat) (fr : image) :
  resolve_haircut_path W haircut_name gender = Some haircut_path ->
  load_haircut W haircut_path gender st = (Some haircut, st1) ->
  heap st !! frame = Some fr ->
  exists hc,
    heap st1 !! haircut = Some hc /\
    heap st1 !! frame = Some fr /\
    apply_haircut W frame haircut_name gender session_id st =
      match detected W fr with
      | None => ((frame, false), after_detect frame st1)
      | Some landmarks =>
          match get_hair_region landmarks (rows fr, cols fr) with
          | None => ((frame, true), after_detect frame st1)
          | Some hair_region =>
              let adjustments := session_adjustments session_id st1 in
              let transformed :=
                transform_haircut hc (get_head_pose landmarks (rows fr, cols fr))
                                  hair_region (Some adjustments) in
              let r := overlay_haircut frame transformed hair_region (Some adjustments)
                         (after_detect frame st1) in
              ((fst r, true), snd r)
          end
      end.
Proof.
  intros Hres Hload Hf.
  destruct (load_haircut_post _ _ _ _ _ _ Hload) as (_ & hc & _ & k & Hk & Hhc & _).
  assert (Hf1 : heap st1 !! frame = Some fr) by (rewrite Hk; by apply lookup_app_l_Some).
  exists hc. split; [exact Hhc|]. split; [exact Hf1|].
  unfold apply_haircut. rewrite Hres.
  unfold mbind at 1. unfold M_bind at 1. rewrite Hload.
  unfold mbind at 1. unfold M_bind at 1. rewrite detect_face_eq.
  rewrite Hf1. cbn [mbind option_bind]. unfold after_detect.
  destruct (detected W fr) as [landmarks|]; [|reflexivity].
  step. rewrite Hf1, Hhc.
  destruct (get_hair_region landmarks (rows fr, cols fr)) as [hair_region|]; [|reflexivity].
  unfold session_adjustments.
  destruct (truthy session_id) as [sid|]; cbv beta iota zeta;
    cbn [session_settings];
    match goal with |- context [overlay_haircut ?f ?t ?r ?a ?s] =>
      destruct (overlay_haircut f t r a s) as [res st3] end; reflexivity.
Qed.

Lemma apply_haircut_unloaded (W : World) (frame : nat) (haircut_name gender : string)
    (session_id : option string) (st : State) :
  (resolve_haircut_path W haircut_name gender = None \/
   exists haircut_path,
     resolve_haircut_path W haircut_name gender = Some haircut_path /\
     fst (load_haircut W haircut_path gender st) = None) ->
  apply_haircut W frame haircut_name gender session_id st = ((frame, false), st).
Proof.
  intros [Hres|(haircut_path & Hres & Hnone)]; unfold apply_haircut; rewrite Hres; [done|].
  apply load_haircut_none in Hnone. step. by rewrite Hnone.
Qed.

(** The asset was found and loaded. *)
Lemma loaded_or_not (W : World) (haircut_name gender : string) (st : State) :
  (exists haircut_path haircut st1,
     resolve_haircut_path W haircut_name gender = Some haircut_path /\
     load_haircut W haircut_path gender st = (Some haircut, st1)) \/
  (resolve_haircut_path W haircut_name gender = None \/
   exists haircut_path,
     resolve_haircut_path W haircut_name gender = Some haircut_path /\
     fst (load_haircut W haircut_path gender st) = None).
Proof.
  destruct (resolve_haircut_path W haircut_name gender) as [haircut_path|]; [|by right; left].
  destruct (load_haircut W haircut_path gender st) as [[haircut|] st1] eqn:Hload.
  - left. by exists haircut_path, haircut, st1.
  - right. right. exists haircut_path. by rewrite Hload.
Qed.


(** X13.  Whatever path [apply_haircut] takes, the array it returns has the
    height, width and channels of the frame it was given. *)
Theorem apply_haircut_keeps_shape (W : World) (frame : nat) (haircut_name gender : string)
    (session_id : option string) (st : State) (fr : image) :
  heap st !! frame = Some fr ->
  let r := apply_haircut W frame haircut_name gender session_id st in
  exists out, heap (snd r) !! fst (fst r) = Some out /\ same_shape out fr.
Proof.
  intros Hf r. unfold r.
  destruct (loaded_or_not W haircut_name gender st)
    as [(haircut_path & haircut & st1 & Hres & Hload)|Hun].
  - destruct (apply_haircut_after_load W frame haircut_name gender session_id st st1
                haircut_path haircut fr Hres Hload Hf) as (hc & _ & Hf1 & ->).
    destruct (detected W fr) as [landmarks|];
      [|exists fr; split; [exact Hf1 | by split_and!]].
    destruct (get_hair_region landmarks (rows fr, cols fr)) as [hair_region|];
      [|exists fr; split; [exact Hf1 | by split_and!]].
    cbv zeta. cbn [fst snd].
    match goal with |- context [overlay_haircut ?f ?t ?rg ?a ?s] =>
      destruct (overlay_rects fr t rg a) as [[[[x1 y1] x2] y2] hrect] eqn:Hrects;
      destruct (overlay_haircut_cases f t rg a s fr x1 y1 x2 y2 hrect Hf1 Hrects)
        as (out & Hout & Hcases)
    end.
    exists out. split; [exact Hout|].
    destruct Hcases as [->|[[b ->]|(b & b' & ->)]]; by split_and!.
  - rewrite (apply_haircut_unloaded _ _ _ _ _ _ Hun). cbn.
    exists fr. split; [exact Hf | by split_and!].
Qed.




(** X15.  The path [apply_haircut] resolves exists and is one of the three
    candidates; the declared category wins when its file exists, and the
    [custom] folder is used for any category whose own file is missing. *)
Theorem resolve_haircut_path_sound (W : World) (haircut_name gender : string) :
  let declared := "app/static/haircuts/" +:+ gender +:+ "/" +:+ haircut_name in
  let custom := "app/static/haircuts/custom/" +:+ haircut_name in
  (forall p, resolve_haircut_path W haircut_name gender = Some p ->
     path_exists W p = true /\ p ∈ candidate_paths haircut_name gender) /\
  (path_exists W declared = true ->
     resolve_haircut_path W haircut_name gender = Some declared) /\
  (path_exists W declared = false -> path_exists W custom = true ->
     resolve_haircut_path W haircut_name gender = Some custom).
Proof.
  intros declared custom. unfold resolve_haircut_path, candidate_paths.
  fold declared. fold custom.
  destruct (path_exists W declared) eqn:E1; cbn [negb].
  - rewrite E1. cbn [negb]. split; [|split; [done|discriminate]].
    intros p [= <-]. split; [exact E1|]. apply elem_of_cons; by left.
  - destruct (path_exists W custom) eqn:E2; cbn [negb].
    + split; [|split; [discriminate|done]].
      intros p [= <-]. split; [exact E2|].
      apply elem_of_cons; right; apply elem_of_cons; by left.
    + split; [|split; discriminate].
      destruct (path_exists W ("app/static/haircuts/custom/" +:+ basename haircut_name))
        eqn:E3; [|discriminate].
      intros p [= <-]. split; [exact E3|].
      do 2 (apply elem_of_cons; right). apply elem_of_cons; by left.
Qed.

Lemma preprocess_count_detect (key : string) (tr : list Event) (frame : nat) :
  preprocess_count key (tr ++ [EvDetect frame]) = preprocess_count key tr.
Proof.
  unfold preprocess_count. rewrite count_occ_app. cbn [count_occ].
  destruct (Event_eq_dec (EvDetect frame) (EvPreprocess key)); [discriminate|lia].
Qed.

(** [apply_haircut] keeps the cache invariant. *)
Lemma apply_haircut_inv (W : World) (frame : nat)
    (haircut_name gender : string) (session_id : option string) (st : State) :
  cache_inv st ->
  cache_inv (snd (apply_haircut W frame haircut_name gender session_id st)).
Proof.
  intros Hinv.
  destruct (loaded_or_not W haircut_name gender st)
    as [(haircut_path & haircut & st1 & Hres & Hload)|Hun].
  - destruct (apply_haircut_loaded W frame haircut_name gender session_id st st1
                haircut_path haircut Hres Hload) as [k ->].
    pose proof (load_haircut_inv W haircut_path gender st Hinv) as Hinv1.
    rewrite Hload in Hinv1. cbn [snd] in Hinv1. destruct Hinv1 as [Hcount Hvalid].
    split; cbn [heap haircut_cache trace].
    + intros key. by rewrite preprocess_count_detect.
    + intros key cached Hk. destruct (Hvalid _ _ Hk) as [v Hv].
      exists v. by apply lookup_app_l_Some.
  - by rewrite (apply_haircut_unloaded _ _ _ _ _ _ Hun).
Qed.

End PipelineMore.


Lemma apply_haircut_keeps_shape_witness :
  let st := one_frame (flat_frame 4 4 100) in
  let W := world_with (flat_bitmap 2 2 200) (Some centered_face) in
  let r := apply_haircut (H := RefCv2) W 0 "fade.png" "male" None st in
  exists out, heap (snd r) !! fst (fst r) = Some out /\ same_shape out (flat_frame 4 4 100).
Proof.
  intros st W.
  apply (apply_haircut_keeps_shape (H := RefCv2) W 0 "fade.png" "male" None st
           (flat_frame 4 4 100)).
  reflexivity.
Defined.


Lemma resolve_haircut_path_sound_witness :
  resolve_haircut_path (world_with (flat_bitmap 2 2 200) None) "fade.png" "male" =
    Some "app/static/haircuts/male/fade.png".
Proof.
  apply (proj1 (proj2 (resolve_haircut_path_sound (world_with (flat_bitmap 2 2 200) None)
                         "fade.png" "male"))).
  reflexivity.
Defined.

(** ** The session endpoints *)

Lemma truthy_nonempty (sid : string) : sid <> "" -> truthy (Some sid) = Some sid.
Proof. destruct sid; [congruence|reflexivity]. Qed.

Lemma truthy_Some (session_id : option string) (sid : string) :
  truthy session_id = Some sid <-> session_id = Some sid /\ sid <> "".
Proof.
  destruct session_id as [[|c s]|]; cbn; split; try discriminate; try (intros [? ?]; congruence).
  intros [= <-]. done.
Qed.

Lemma adjust_haircut_sessions (sid : string) (adj : option json) (srv : Server) :
  sid <> "" ->
  snd (adjust_haircut (AdjustRequest.mk (Some sid) adj) srv) =
    mk_Server (<[sid := <["adjustments" := default (JDict []) adj]>
                          (default ∅ (active_sessions srv !! sid))]> (active_sessions srv))
              (hair_overlay srv).
Proof.
  intros Hne. unfold adjust_haircut. cbv zeta.
  cbn [AdjustRequest.session_id AdjustRequest.adjustments].
  rewrite (truthy_nonempty _ Hne). cbn [snd].
  destruct (active_sessions srv !! sid) as [session|] eqn:Hs.
  - by rewrite Hs.
  - rewrite lookup_insert_eq, insert_insert_eq. reflexivity.
Qed.



(** X18.  [reset_session] succeeds exactly for a non-empty id that has a
    session; afterwards that session is gone and resetting it again fails;
    other sessions and the overlay engine are untouched, and a failed reset
    changes nothing. *)
Theorem reset_session_removes (session_id : option string) (srv : Server) :
  let r := reset_session session_id srv in
  ((exists message, fst r = RSuccess message) <->
   exists sid, session_id = Some sid /\ sid <> "" /\ is_Some (active_sessions srv !! sid)) /\
  (forall sid, session_id = Some sid -> sid <> "" ->
     get_session sid (snd r) = RError "Session not found" 200) /\
  (forall other, session_id <> Some other ->
     get_session other (snd r) = get_session other srv) /\
  ((forall message, fst r <> RSuccess message) -> snd r = srv) /\
  fst (reset_session session_id (snd r)) = RError "Session not found" 200 /\
  hair_overlay (snd r) = hair_overlay srv.
Proof.
  intros r. unfold r, reset_session.
  destruct (truthy session_id) as [sid|] eqn:Ht.
  - apply truthy_Some in Ht as [-> Hne].
    destruct (active_sessions srv !! sid) as [session|] eqn:Hs; cbn [fst snd].
    + split_and!.
      * split; [|by eexists]. intros _. exists sid. by rewrite Hs.
      * intros ? [= <-] _. unfold get_session. cbn [active_sessions].
        by rewrite lookup_delete_eq.
      * intros other Ho. unfold get_session. cbn [active_sessions].
        rewrite lookup_delete_ne; [done|congruence].
      * intros Hno. by destruct (Hno "Session reset successfully").
      * cbn [active_sessions]. by rewrite lookup_delete_eq.
      * reflexivity.
    + split_and!.
      * split; [intros [? ?]; discriminate|].
        intros (? & [= <-] & _ & [? ?]). congruence.
      * intros ? [= <-] _. unfold get_session. by rewrite Hs.
      * done.
      * done.
      * by rewrite Hs.
      * reflexivity.
  - cbn [fst snd]. split_and!; try done.
    + split; [intros [? ?]; discriminate|].
      intros (sid & -> & Hne & _). by rewrite (truthy_nonempty _ Hne) in Ht.
    + intros sid -> Hne. by rewrite (truthy_nonempty _ Hne) in Ht.
Qed.

(** X19.  Resetting a session right after adjusting it removes it: the
    sessions are the earlier ones without that id, and a server that had no
    such session is exactly as it was. *)
Theorem adjust_then_reset (sid : string) (adj : option json) (srv : Server) :
  sid <> "" ->
  let r := reset_session (Some sid) (snd (adjust_haircut (AdjustRequest.mk (Some sid) adj) srv)) in
  fst r = RSuccess "Session reset successfully" /\
  active_sessions (snd r) = delete sid (active_sessions srv) /\
  (active_sessions srv !! sid = None -> snd r = srv).
Proof.
  intros Hne r. unfold r. rewrite (adjust_haircut_sessions _ _ _ Hne).
  unfold reset_session. rewrite (truthy_nonempty _ Hne). cbn [active_sessions].
  rewrite lookup_insert_eq. cbn [fst snd active_sessions hair_overlay].
  rewrite delete_insert_eq. split_and!; [done..|].
  intros Hs. rewrite (delete_id _ _ Hs). by destruct srv.
Qed.

Lemma adjust_then_reset_witness :
  snd (reset_session (Some "s1")
         (snd (adjust_haircut (AdjustRequest.mk (Some "s1") None) initial_server))) =
    initial_server.
Proof.
  apply (proj2 (proj2 (adjust_then_reset "s1" None initial_server ltac:(discriminate)))).
  reflexivity.
Defined.

(** ** The frame endpoint *)

Section FrameEndpoint.
Context `{Cv2}.

(** A frame request that passes validation runs the pipeline on a new
    array. *)
Lemma process_frame_accepted (C : Codec) (W : World) (data : FrameRequest.t) (srv : Server)
    (frame_data haircut : string) (decoded : image) :
  truthy (FrameRequest.frame data) = Some frame_data ->
  truthy (FrameRequest.haircut data) = Some haircut ->
  decode_frame C (strip_data_uri frame_data) = Some decoded ->
  let st0 := snd (alloc decoded (hair_overlay srv)) in
  let r := apply_haircut W (length (heap (hair_overlay srv))) haircut
             (default "male" (FrameRequest.gender data)) (FrameRequest.session_id data) st0 in
  process_frame C W data srv =
    (match encode_frame C <$> heap (snd r) !! fst (fst r) with
     | Some (EncOk result_base64) =>
         RFrame ("data:image/jpeg;base64," +:+ result_base64) (snd (fst r))
     | Some (EncRaise message) => RError message 500
     | None => RError "" 500
     end,
     mk_Server (active_sessions srv) (snd r)).
Proof.
  intros Hf Hh Hd st0 r. unfold process_frame. rewrite Hf, Hh, Hd.
  unfold alloc at 1. fold r. unfold r, st0, alloc. cbn [snd].
  destruct (apply_haircut _ _ _ _ _ _) as [[result_frame face_detected] st].
  cbn [fst snd]. by destruct (encode_frame C <$> heap st !! result_frame) as [[|]|].
Qed.

Lemma process_frame_rejected (C : Codec) (W : World) (data : FrameRequest.t) (srv : Server) :
  (truthy (FrameRequest.frame data) = None \/
   truthy (FrameRequest.haircut data) = None \/
   exists frame_data,
     truthy (FrameRequest.frame data) = Some frame_data /\
     decode_frame C (strip_data_uri frame_data) = None) ->
  snd (process_frame C W data srv) = srv /\
  exists error, fst (process_frame C W data srv) = RError error 200.
Proof.
  unfold process_frame.
  intros [Hf|[Hh|(frame_data & Hf & Hd)]].
  - rewrite Hf. split; [done|by eexists].
  - rewrite Hh. destruct (truthy (FrameRequest.frame data)); (split; [done|by eexists]).
  - rewrite Hf, Hd.
    destruct (truthy (FrameRequest.haircut data)); (split; [done|by eexists]).
Qed.

Lemma process_frame_cases (C : Codec) (data : FrameRequest.t) :
  (exists frame_data haircut decoded,
     truthy (FrameRequest.frame data) = Some frame_data /\
     truthy (FrameRequest.haircut data) = Some haircut /\
     decode_frame C (strip_data_uri frame_data) = Some decoded) \/
  (truthy (FrameRequest.frame data) = None \/
   truthy (FrameRequest.haircut data) = None \/
   exists frame_data,
     truthy (FrameRequest.frame data) = Some frame_data /\
     decode_frame C (strip_data_uri frame_data) = None).
Proof.
  destruct (truthy (FrameRequest.frame data)) as [frame_data|]; [|by right; left].
  destruct (truthy (FrameRequest.haircut data)) as [haircut|]; [|by right; right; left].
  destruct (decode_frame C (strip_data_uri frame_data)) as [decoded|] eqn:Hd.
  - left. by exists frame_data, haircut, decoded.
  - right. right. right. by exists frame_data.
Qed.

(** X20.  [process_frame] never touches the sessions, only ever adds arrays
    to the overlay engine's store, answers a frame only when the request
    carried a frame and a haircut, and a request it rejects (status 200 with
    an error) changes nothing at all. *)
Theorem process_frame_effects (C : Codec) (W : World) (data : FrameRequest.t) (srv : Server) :
  let r := process_frame C W data srv in
  active_sessions (snd r) = active_sessions srv /\
  (exists k, heap (hair_overlay (snd r)) = heap (hair_overlay srv) ++ k) /\
  (forall error, fst r = RError error 200 -> snd r = srv) /\
  (forall frame face_detected, fst r = RFrame frame face_detected ->
     is_Some (truthy (FrameRequest.frame data)) /\
     is_Some (truthy (FrameRequest.haircut data)) /\
     exists result_base64, frame = "data:image/jpeg;base64," +:+ result_base64).
Proof.
  intros r. unfold r.
  destruct (process_frame_cases C data)
    as [(frame_data & haircut & decoded & Hf & Hh & Hd)|Hrej].
  - rewrite (process_frame_accepted C W data srv _ _ _ Hf Hh Hd). cbn [fst snd].
    set (st0 := snd (alloc decoded (hair_overlay srv))).
    destruct (apply_haircut_extends W (length (heap (hair_overlay srv))) haircut
                (default "male" (FrameRequest.gender data))
                (FrameRequest.session_id data) st0) as [k Hk].
    split_and!.
    + reflexivity.
    + exists ([decoded] ++ k). cbn [hair_overlay]. rewrite Hk.
      unfold st0, alloc. cbn [snd heap]. by rewrite (assoc_L (++)).
    + intros error. by destruct (encode_frame C <$> _) as [[|]|].
    + intros frame face_detected. rewrite Hf, Hh.
      destruct (encode_frame C <$> _) as [[result_base64|]|]; try discriminate.
      intros [= <- _]. split_and!; [by eexists..|]. by exists result_base64.
  - destruct (process_frame_rejected C W data srv Hrej) as [-> [error ->]].
    split_and!; [done|exists []; by rewrite app_nil_r|done|discriminate].
Qed.


Lemma alloc_inv (v : image) (st : State) : cache_inv st -> cache_inv (snd (alloc v st)).
Proof.
  intros [Hcount Hvalid]. split; [exact Hcount|].
  intros key cached Hk. destruct (Hvalid _ _ Hk) as [a Ha].
  exists a. unfold alloc. cbn [snd heap]. by apply lookup_app_l_Some.
Qed.

Lemma handle_inv (req : Request) (srv : Server) :
  cache_inv (hair_overlay srv) -> cache_inv (hair_overlay (snd (handle req srv))).
Proof.
  intros Hinv.
  destruct req as [data|session_id|session_id|C W data]; cbn [handle snd].
  - unfold adjust_haircut. by destruct (truthy _).
  - unfold reset_session. destruct (truthy _); [|done]. by destruct (_ !! _).
  - exact Hinv.
  - destruct (process_frame_cases C data)
      as [(frame_data & haircut & decoded & Hf & Hh & Hd)|Hrej].
    + rewrite (process_frame_accepted C W data srv _ _ _ Hf Hh Hd). cbn [snd hair_overlay].
      by apply apply_haircut_inv, alloc_inv.
    + by destruct (process_frame_rejected C W data srv Hrej) as [-> _].
Qed.

(** X16.  Over any sequence of requests the cache invariant of the overlay
    engine holds: [preprocess_haircut] has run exactly once for every cached
    asset and never for an uncached one, and every cache entry refers to an
    array. *)
Theorem server_keeps_cache_inv (reqs : list Request) (srv : Server) :
  cache_inv (hair_overlay srv) ->
  cache_inv (hair_overlay (run_requests reqs srv)).
Proof.
  revert srv. induction reqs as [|req rest IH]; intros srv Hinv; [exact Hinv|].
  cbn [run_requests]. by apply IH, handle_inv.
Qed.


End FrameEndpoint.

Lemma server_keeps_cache_inv_witness :
  cache_inv (hair_overlay
    (run_requests (H := RefCv2)
       [ReqFrame (mk_Codec (fun _ => Some (flat_frame 4 4 100)) (fun _ => EncOk "AAAA"))
                 (world_with (flat_bitmap 2 2 200) None)
                 (FrameRequest.mk (Some "AAAA") None (Some "fade.png") None)]
       initial_server)).
Proof.
  apply (server_keeps_cache_inv (H := RefCv2)).
  apply initial_state_inv.
Defined.


(** ** Data URIs *)

Lemma partition_at_eq (sep s : string) :
  partition_at sep s =
    if String.prefix sep s then Some (EmptyString, string_drop (String.length sep) s)
    else match s with
         | EmptyString => None
         | String c s' =>
             match partition_at sep s' with
             | Some (before, after) => Some (String c before, after)
             | None => None
             end
         end.
Proof. destruct s; reflexivity. Qed.

Lemma append_nil_l (s : string) : "" +:+ s = s.
Proof. reflexivity. Qed.

Lemma append_cons (c : ascii) (a b : string) : String c a +:+ b = String c (a +:+ b).
Proof. reflexivity. Qed.

Lemma prefix_app (sep r : string) : String.prefix sep (sep +:+ r) = true.
Proof.
  induction sep as [|a sep IH]; simpl; [by destruct r|].
  destruct (ascii_dec a a); [exact IH|congruence].
Qed.

Lemma prefix_inv (sep s : string) :
  String.prefix sep s = true -> exists r, s = sep +:+ r.
Proof.
  revert s. induction sep as [|a sep IH]; intros s; [by exists s|].
  destruct s as [|b s]; simpl; [discriminate|].
  destruct (ascii_dec a b) as [->|]; [|discriminate].
  intros Hp. destruct (IH _ Hp) as [r ->]. by exists r.
Qed.

Lemma string_drop_app (sep r : string) : string_drop (String.length sep) (sep +:+ r) = r.
Proof. induction sep as [|a sep IH]; simpl; [by destruct r|exact IH]. Qed.

Lemma partition_at_Some (sep s before after : string) :
  partition_at sep s = Some (before, after) -> s = before +:+ sep +:+ after.
Proof.
  revert before. induction s as [|c s IH]; intros before; rewrite partition_at_eq.
  - destruct (String.prefix sep "") eqn:Hp; [|discriminate].
    destruct (prefix_inv _ _ Hp) as [r Hr]. intros [= <- <-].
    destruct sep; [reflexivity|discriminate].
  - destruct (String.prefix sep (String c s)) eqn:Hp.
    + destruct (prefix_inv _ _ Hp) as [r Hr]. intros [= <- <-].
      rewrite Hr, string_drop_app. reflexivity.
    + destruct (partition_at sep s) as [[b a]|]; [|discriminate].
      intros [= <- <-].
      change (String c b +:+ sep +:+ a) with (String c (b +:+ sep +:+ a)).
      by rewrite <- (IH b eq_refl).
Qed.

Lemma partition_at_None (sep s : string) :
  partition_at sep s = None <-> ~ contains sep s.
Proof.
  split.
  - induction s as [|c s IH]; rewrite partition_at_eq.
    + destruct (String.prefix sep "") eqn:Hp; [discriminate|]. intros _ (b & a & Hs).
      destruct b; [|discriminate]. rewrite append_nil_l in Hs.
      rewrite Hs, prefix_app in Hp. discriminate.
    + destruct (String.prefix sep (String c s)) eqn:Hp; [discriminate|].
      destruct (partition_at sep s) as [[b a]|]; [discriminate|].
      intros _ (b & a & Hs). destruct b as [|c' b].
      * rewrite append_nil_l in Hs. rewrite Hs, prefix_app in Hp. discriminate.
      * rewrite append_cons in Hs. injection Hs as -> Hs. apply IH; [done|]. by exists b, a.
  - intros Hn. destruct (partition_at sep s) as [[b a]|] eqn:Hp; [|done].
    destruct Hn. exists b, a. by apply partition_at_Some.
Qed.

Lemma append_assoc (a b c : string) : (a +:+ b) +:+ c = a +:+ b +:+ c.
Proof. induction a as [|x a IH]; [done|]. by rewrite !append_cons, IH. Qed.

(** What precedes the first occurrence holds no occurrence. *)
Lemma partition_at_first (sep s before after : string) :
  sep <> "" ->
  partition_at sep s = Some (before, after) -> ~ contains sep before.
Proof.
  intros Hne. revert before. induction s as [|c s IH]; intros before; rewrite partition_at_eq.
  - destruct (String.prefix sep "") eqn:Hp; [|discriminate].
    destruct (prefix_inv _ _ Hp) as [r Hr]. destruct sep; [done|discriminate].
  - destruct (String.prefix sep (String c s)) eqn:Hp.
    + intros [= <- _] (b & a & Hb). destruct b; [|discriminate].
      destruct sep; [done|discriminate].
    + destruct (partition_at sep s) as [[b a]|] eqn:Hs; [|discriminate].
      intros [= <- <-] (b' & a' & Hb). destruct b' as [|c' b'].
      * rewrite append_nil_l in Hb. apply partition_at_Some in Hs.
        assert (String c s = sep +:+ (a' +:+ sep +:+ a)) as Heq.
        { rewrite Hs, <- append_cons, Hb. by rewrite append_assoc. }
        rewrite Heq, prefix_app in Hp. discriminate.
      * rewrite append_cons in Hb. injection Hb as -> Hb.
        apply (IH b eq_refl). by exists b', a'.
Qed.

(** A header that does not hold the first character of [sep] is skipped. *)
Lemma partition_at_header (b0 : ascii) (sep' hdr s : string) :
  (forall c, In c (list_ascii_of_string hdr) -> c <> b0) ->
  partition_at (String b0 sep') (hdr +:+ s) =
    match partition_at (String b0 sep') s with
    | Some (before, after) => Some (hdr +:+ before, after)
    | None => None
    end.
Proof.
  induction hdr as [|c hdr IH]; intros Hh.
  - rewrite append_nil_l. by destruct (partition_at _ s) as [[? ?]|].
  - rewrite append_cons, partition_at_eq.
    assert (String.prefix (String b0 sep') (String c (hdr +:+ s)) = false) as ->.
    { simpl. destruct (ascii_dec b0 c) as [->|]; [|done].
      destruct (Hh c); [by left|done]. }
    rewrite IH; [|intros c' Hc'; apply Hh; by right].
    by destruct (partition_at _ s) as [[? ?]|].
Qed.

(** X22.  The data-URI header is stripped the way the server writes it: a
    string without [base64,] is taken as it is, the payload of
    [data:image/jpeg;base64,<payload>] is recovered, and what is handed to
    the decoder never contains [base64,]. *)
Theorem strip_data_uri_spec (s payload : string) :
  (~ contains "base64," s -> strip_data_uri s = s) /\
  (~ contains "base64," payload ->
     strip_data_uri ("data:image/jpeg;base64," +:+ payload) = payload) /\
  ~ contains "base64," (strip_data_uri s).
Proof.
  split_and!.
  - intros Hn. unfold strip_data_uri. by rewrite (proj2 (partition_at_None _ _) Hn).
  - intros Hn. apply partition_at_None in Hn. unfold strip_data_uri.
    change ("data:image/jpeg;base64," +:+ payload)
      with ("data:image/jpeg;" +:+ "base64," +:+ payload).
    rewrite partition_at_header.
    + rewrite partition_at_eq, prefix_app, string_drop_app. by rewrite Hn.
    + intros c Hin. simpl in Hin.
      repeat (destruct Hin as [<-|Hin]; [discriminate|]). contradiction.
  - unfold strip_data_uri.
    destruct (partition_at "base64," s) as [[before rest]|] eqn:Hs;
      [|by apply partition_at_None].
    destruct (partition_at "base64," rest) as [[segment after]|] eqn:Hr;
      [|by apply partition_at_None].
    by apply (partition_at_first "base64," rest segment after).
Qed.

Lemma strip_data_uri_spec_witness :
  strip_data_uri "data:image/jpeg;base64,/9j/4AAQ" = "/9j/4AAQ".
Proof.
  apply (proj1 (proj2 (strip_data_uri_spec "" "/9j/4AAQ"))).
  apply partition_at_None. reflexivity.
Defined.

(** ** Uploads and listings *)

Lemma endswith_eq (s suffix : string) :
  endswith s suffix =
    String.eqb s suffix ||
    match s with
    | EmptyString => false
    | String _ s' => endswith s' suffix
    end.
Proof. destruct s; reflexivity. Qed.

Lemma endswith_app (a suffix : string) : endswith (a +:+ suffix) suffix = true.
Proof.
  induction a as [|c a IH].
  - rewrite append_nil_l, endswith_eq, String.eqb_refl. reflexivity.
  - rewrite append_cons, endswith_eq, IH. apply orb_true_r.
Qed.

Lemma lower_app (a b : string) : lower (a +:+ b) = lower a +:+ lower b.
Proof.
  induction a as [|c a IH]; [reflexivity|].
  rewrite append_cons. cbn [lower]. by rewrite IH, append_cons.
Qed.

Lemma is_image_name_stored (uuid4 file_extension : string) :
  file_extension ∈ ["png"; "jpg"; "jpeg"; "gif"] ->
  is_image_name (uuid4 +:+ "." +:+ file_extension) = true.
Proof.
  intros Hext. unfold is_image_name.
  change (uuid4 +:+ "." +:+ file_extension) with (uuid4 +:+ ("." +:+ file_extension)).
  rewrite lower_app.
  apply existsb_exists. exists (lower ("." +:+ file_extension)).
  split; [|apply endswith_app].
  repeat (apply elem_of_cons in Hext as [->|Hext]; [cbn; tauto|]).
  by apply elem_of_nil in Hext.
Qed.

(** X23.  An upload is stored only when it is accepted, and then as one file
    of at most 10 MB directly in the [custom] folder, named by the UUID and
    one of the four extensions in lower case: nothing of the client's file
    name but its extension is used.  The stored name passes the filter of
    [get_haircuts], and [apply_haircut] resolves it for any category that has
    no file of that name. *)
Theorem upload_stored_under_custom (uuid4 : string) (file : Upload.t) :
  let r := upload_haircut uuid4 file in
  (forall filename path, fst r = RUploaded filename path ->
     exists file_extension,
       file_extension ∈ ["png"; "jpg"; "jpeg"; "gif"] /\
       filename = uuid4 +:+ "." +:+ file_extension /\
       path = "/static/haircuts/custom/" +:+ filename /\
       snd r = [FsMakedirs "app/static/haircuts/custom";
                FsWrite ("app/static/haircuts/custom/" +:+ filename) (Upload.contents file)] /\
       Z.of_nat (length (Upload.contents file)) <= 10485760 /\
       is_image_name filename = true /\
       forall (W : World) (gender : string),
         path_exists W ("app/static/haircuts/custom/" +:+ filename) = true ->
         path_exists W ("app/static/haircuts/" +:+ gender +:+ "/" +:+ filename) = false ->
         resolve_haircut_path W filename gender =
           Some ("app/static/haircuts/custom/" +:+ filename)) /\
  ((forall filename path, fst r <> RUploaded filename path) ->
   forall path contents, FsWrite path contents ∉ snd r).
Proof.
  intros r. unfold r, upload_haircut.
  destruct (truthy (Upload.content_type file)) as [content_type|];
    [|split; [discriminate|intros _ ? ?; apply not_elem_of_nil]].
  destruct (String.prefix "image/" content_type); cbn [negb];
    [|split; [discriminate|intros _ ? ?; apply not_elem_of_nil]].
  destruct (Upload.filename file) as [name|];
    [|split; [discriminate|intros _ ? ?; apply not_elem_of_nil]].
  cbv zeta.
  set (file_extension := lower (List.last (split_char "." name) "")).
  destruct (bool_decide (file_extension ∈ ["png"; "jpg"; "jpeg"; "gif"])) eqn:Hext;
    cbn [negb]; [|split; [discriminate|intros _ ? ?; apply not_elem_of_nil]].
  apply bool_decide_eq_true in Hext.
  destruct (10 * 1024 * 1024 <? Z.of_nat (length (Upload.contents file))) eqn:Hsize.
  - split; [discriminate|]. intros _ path contents Hin.
    apply list_elem_of_singleton in Hin. discriminate.
  - split; [|intros Hno; by destruct (Hno _ _ eq_refl)].
    intros filename path [= <- <-]. exists file_extension.
    apply Z.ltb_ge in Hsize.
    split_and!; [exact Hext|reflexivity|reflexivity|reflexivity|lia|
                 by apply is_image_name_stored|].
    intros W gender Hcustom Hdeclared.
    unfold resolve_haircut_path. cbv zeta. rewrite Hdeclared. cbn [negb].
    by rewrite Hcustom.
Qed.

Lemma upload_stored_under_custom_witness :
  exists file_extension,
    file_extension ∈ ["png"; "jpg"; "jpeg"; "gif"] /\
    "0b5e.png" = "0b5e" +:+ "." +:+ file_extension /\
    is_image_name "0b5e.png" = true.
Proof.
  destruct (proj1 (upload_stored_under_custom "0b5e"
                     (Upload.mk (Some "image/png") (Some "../Fade.Final.PNG") []))
              "0b5e.png" "/static/haircuts/custom/0b5e.png" eq_refl)
    as (file_extension & Hext & Hname & _ & _ & _ & Himg & _).
  exists file_extension. split_and!; [exact Hext|exact Hname|exact Himg].
Defined.

Lemma str_le_total : Total str_le.
Proof. intros a b. apply String.leb_total. Qed.

Lemma str_le_antisym : AntiSymm (=) str_le.
Proof. intros a b. apply String.leb_antisym. Qed.

Lemma str_le_trans : Transitive str_le.
Proof.
  unfold str_le, String.leb. intros a.
  induction a as [|x a IH]; intros [|y b] [|z c]; cbn [String.compare]; try done.
  unfold Ascii.compare.
  destruct (N.compare_spec (N_of_ascii x) (N_of_ascii y)) as [E1|L1|G1];
    destruct (N.compare_spec (N_of_ascii y) (N_of_ascii z)) as [E2|L2|G2];
    destruct (N.compare_spec (N_of_ascii x) (N_of_ascii z)) as [E3|L3|G3];
    try done; try lia.
  apply IH.
Qed.

(** X24.  For a listable category folder [get_haircuts] answers the names in
    the folder that end in [.png], [.jpg], [.jpeg] or [.gif], whatever their
    case, in Python's string order, with their number: the list is the one
    sorted arrangement of those names.  Any other category is refused
    without looking at the file system. *)
Theorem get_haircuts_listing (listdir : string -> DirState) (gender : string)
    (all_files : list string) :
  gender ∈ ["male"; "female"; "custom"] ->
  listdir ("app/static/haircuts/" +:+ gender) = Listing all_files ->
  exists haircuts,
    get_haircuts listdir gender = RHaircuts haircuts (length haircuts) gender /\
    (forall h, h ∈ haircuts <-> h ∈ all_files /\ is_image_name h = true) /\
    Sorted str_le haircuts /\
    (forall l, l ≡ₚ filter (fun h => is_image_name h = true) all_files ->
       Sorted str_le l -> l = haircuts) /\
    (forall other, other ∉ ["male"; "female"; "custom"] ->
       get_haircuts listdir other =
         RError "Invalid gender. Use 'male', 'female', or 'custom'" 200).
Proof.
  intros Hg Hdir.
  exists (merge_sort str_le (filter (fun h => is_image_name h = true) all_files)).
  pose proof (merge_sort_Permutation str_le
                (filter (fun h => is_image_name h = true) all_files)) as Hperm.
  pose proof (@Sorted_merge_sort _ str_le _ str_le_total
                (filter (fun h => is_image_name h = true) all_files)) as Hsorted.
  split_and!.
  - unfold get_haircuts. rewrite (bool_decide_eq_true_2 _ Hg), Hdir. reflexivity.
  - intros h. rewrite Hperm, list_elem_of_filter. tauto.
  - exact Hsorted.
  - intros l Hl Hs.
    apply (@Sorted_unique _ str_le str_le_trans str_le_antisym); [done..|].
    by rewrite Hl, Hperm.
  - intros other Ho. unfold get_haircuts. by rewrite (bool_decide_eq_false_2 _ Ho).
Qed.

Lemma get_haircuts_listing_witness :
  exists haircuts,
    get_haircuts (fun _ => Listing ["b.png"; "notes.txt"; "Z.JPG"; "a.gif"]) "male" =
      RHaircuts haircuts (length haircuts) "male" /\
    Sorted str_le haircuts.
Proof.
  destruct (get_haircuts_listing (fun _ => Listing ["b.png"; "notes.txt"; "Z.JPG"; "a.gif"])
              "male" ["b.png"; "notes.txt"; "Z.JPG"; "a.gif"])
    as (haircuts & Heq & _ & Hsorted & _).
  - apply elem_of_cons. by left.
  - reflexivity.
  - exists haircuts. split; [exact Heq | exact Hsorted].
Defined.

Example get_haircuts_sample :
  get_haircuts (fun _ => Listing ["b.png"; "notes.txt"; "Z.JPG"; "a.gif"]) "male" =
    RHaircuts ["Z.JPG"; "a.gif"; "b.png"] 3 "male".
Proof. vm_compute. reflexivity. Qed.
